(** * sampleSorter: a shallow embedding of [main.go]

    The program walks a source directory, keeps the audio files whose
    lower-cased name contains a keyword, and copies them into numbered
    [group_<n>] sub-folders of a destination directory.

    Go strings are byte strings: they are modelled by [string], whose
    characters are 8-bit [ascii] values.  Go's [int] is modelled by [Z]: every
    counter of the program ([i], [fileIdx], [groupIdx]) is bounded by the
    length of a slice, so none can wrap around.

    The operating system and the parts of the Go library whose behaviour is
    data outside this repository (Unicode case tables, path cleaning, the file
    system) are an interface, [Runtime]; the program is written against that
    interface and most theorems hold for each of its implementations.  Two
    implementations are given: [traced], which wraps another one and records
    the calls made, and [Sim], a small in-memory file system on which concrete
    runs are evaluated. *)

From Stdlib Require Import Ascii String.
From stdpp Require Import base strings list gmap pretty.

Open Scope Z_scope.

(** ** Go library functions on byte strings *)

Module Go.

Definition IsPathSeparator (c : ascii) : bool := bool_decide (c = "/"%char).

Fixpoint has_separator (s : string) : bool :=
  match s with
  | EmptyString => false
  | String c r => IsPathSeparator c || has_separator r
  end.

(** [strings.Contains s substr]: [substr] occurs in [s] at some offset. *)
Fixpoint Contains (s substr : string) : bool :=
  String.prefix substr s ||
  match s with
  | EmptyString => false
  | String _ r => Contains r substr
  end.

(** [filepath.Ext]: the suffix that starts at the last dot of the last
    element of the path, empty when that element has no dot. *)
Fixpoint Ext (path : string) : string :=
  match path with
  | EmptyString => EmptyString
  | String c r =>
      match Ext r with
      | EmptyString =>
          if has_separator r then EmptyString
          else if bool_decide (c = "."%char) then path else EmptyString
      | e => e
      end
  end.

(** First loop of [filepath.Base]: drop the trailing separators. *)
Fixpoint strip_trailing_separators (path : string) : string :=
  match path with
  | EmptyString => EmptyString
  | String c r =>
      match strip_trailing_separators r with
      | EmptyString => if IsPathSeparator c then EmptyString else String c EmptyString
      | r' => String c r'
      end
  end.

(** Second loop of [filepath.Base]: what follows the last separator. *)
Fixpoint last_element (path : string) : string :=
  match path with
  | EmptyString => EmptyString
  | String c r =>
      if has_separator r then last_element r
      else if IsPathSeparator c then r else path
  end.

(** [filepath.Base] on a system whose separator is [/] and whose volume
    names are empty. *)
Definition Base (path : string) : string :=
  if bool_decide (path = EmptyString) then "."%string
  else
    match last_element (strip_trailing_separators path) with
    | EmptyString => "/"%string
    | e => e
    end.

(** The slice expression [s[:n]]: it panics unless [n <= len(s)]. *)
Definition slice_to (s : string) (n : nat) : option string :=
  if (n <=? String.length s)%nat then Some (String.substring 0 n s) else None.

Fixpoint drop_bytes (n : nat) (s : string) : string :=
  match n, s with
  | O, _ => s
  | S _, EmptyString => EmptyString
  | S m, String _ r => drop_bytes m r
  end.

(** [strings.Replace s old new 1]: the first occurrence of [old] is replaced. *)
Fixpoint Replace_first (s old new : string) : string :=
  if String.prefix old s then new +:+ drop_bytes (String.length old) s
  else
    match s with
    | EmptyString => EmptyString
    | String c r => String c (Replace_first r old new)
    end.

(** The elements of a path: what stands between its separators. *)
Fixpoint elements_from (cur path : string) : list string :=
  match path with
  | EmptyString => [cur]
  | String c r =>
      if IsPathSeparator c then cur :: elements_from EmptyString r
      else elements_from (cur +:+ String c EmptyString) r
  end.

Definition elements (path : string) : list string := elements_from EmptyString path.

(** One turn of the loop of [filepath.Clean].  [out] holds the elements kept
    so far, the last one first.  Empty elements and [.] are dropped; [..]
    takes away the element before it, unless there is none to take: then it
    is dropped in a rooted path and kept in another one. *)
Definition clean_step (rooted : bool) (out : list string) (e : string) : list string :=
  if bool_decide (e = EmptyString) || bool_decide (e = "."%string) then out
  else if bool_decide (e = ".."%string) then
    match out with
    | top :: rest => if bool_decide (top = ".."%string) then e :: out else rest
    | [] => if rooted then [] else [e]
    end
  else e :: out.

Fixpoint join_elements (l : list string) : string :=
  match l with
  | [] => EmptyString
  | e :: r =>
      match r with
      | [] => e
      | _ :: _ => e +:+ "/" +:+ join_elements r
      end
  end.

(** [filepath.Clean] on a system whose separator is [/] and whose volume
    names are empty: the shortest path that names the same file by lexical
    processing alone.  The empty path becomes [.]. *)
Definition Clean (path : string) : string :=
  let rooted := String.prefix "/" path in
  let kept := rev (foldl (clean_step rooted) [] (elements path)) in
  match (if rooted then "/"%string else EmptyString) +:+ join_elements kept with
  | EmptyString => "."%string
  | cleaned => cleaned
  end.

(** [filepath.Join] of two elements: the elements from the first non-empty
    one on, with a separator between them, cleaned; the empty string when
    both are empty. *)
Definition Join (a b : string) : string :=
  if bool_decide (a = EmptyString)
  then (if bool_decide (b = EmptyString) then EmptyString else Clean b)
  else Clean (a +:+ "/" +:+ b).

(** [filepath.IsAbs]. *)
Definition IsAbs (path : string) : bool := String.prefix "/" path.

(** [strings.ToLower] restricted to ASCII letters; used by [Sim] only. *)
Definition lower_byte (c : ascii) : ascii :=
  let n := nat_of_ascii c in
  if ((65 <=? n) && (n <=? 90))%nat then ascii_of_nat (n + 32) else c.

Fixpoint ToLower_ascii (s : string) : string :=
  match s with
  | EmptyString => EmptyString
  | String c r => String (lower_byte c) (ToLower_ascii r)
  end.

End Go.

(** ** Errors, outcomes, directory entries *)

(** Go's [error] values.  [SkipDir] and [SkipAll] are the two sentinel values
    of [path/filepath]; every other error is its message. *)
Inductive error : Type :=
| SkipDir
| SkipAll
| Err (msg : string).

#[global] Instance error_eq_dec : EqDecision error.
Proof. solve_decision. Defined.

(** [err != nil] *)
Definition not_nil (err : option error) : bool :=
  match err with
  | Some _ => true
  | None => false
  end.

(** [err.Error()], as [%s] prints an error. *)
Definition Error (e : error) : string :=
  match e with
  | SkipDir => "skip this directory"
  | SkipAll => "skip everything and stop the walk"
  | Err msg => msg
  end.

(** How a Go function call ends: it returns, it panics, or [os.Exit] ends the
    process. *)
Inductive outcome (A : Type) : Type :=
| Return (a : A)
| Panic (msg : string)
| Exit (code : Z).
Arguments Return {A} a.
Arguments Panic {A} msg.
Arguments Exit {A} code.

(** [os.FileInfo], as far as the program reads it. *)
Record FileInfo := { fi_Name : string; fi_IsDir : bool }.

(** What [os.Lstat] and the directory listing report at a path and below it:
    an entry that cannot be stat'ed, a file (anything that is not a
    directory), or a directory with the error of its listing, if any, and its
    entries in the lexical order in which [filepath.Walk] visits them.  The
    entries of a directory that cannot be listed exist all the same. *)
#[warnings="-register-all"]
Inductive entry : Type :=
| NoStat (name : string) (e : error)
| File (name : string)
| Dir (name : string) (listing : option error) (entries : list entry).

Definition entry_name (t : entry) : string :=
  match t with
  | NoStat n _ | File n | Dir n _ _ => n
  end.

(** One line written by the program: on standard output ([fmt.Printf],
    [fmt.Println]), by the [log] package (its time stamp is left out), or the
    usage text of [flag.Usage]. *)
Inductive line : Type :=
| Stdout (text : string)
| Logged (text : string)
| UsageText.

#[global] Instance line_eq_dec : EqDecision line.
Proof. solve_decision. Defined.

(** ** The runtime interface

    [W] is the state of the world outside the process (file system, current
    user, working directory); [H] is the type of open files ([*os.File]). *)
Class Runtime (W H : Type) : Type := {
  (** [strings.ToLower] *)
  strings_ToLower : string -> string;
  (** [filepath.Join] of two elements *)
  filepath_Join : string -> string -> string;
  (** [filepath.Abs] *)
  filepath_Abs : string -> W -> string + error;
  (** [user.Current()]: the home directory of the current user *)
  user_Current : W -> string + error;
  (** what [filepath.Walk] finds at a root *)
  os_tree : string -> W -> entry;
  (** [os.MkdirAll path perm] *)
  os_MkdirAll : string -> Z -> W -> option error * W;
  (** [os.Open] and [os.Create] *)
  os_Open : string -> W -> (H + error) * W;
  os_Create : string -> W -> (H + error) * W;
  (** [io.Copy dst src]; the byte count it returns is dropped by the program *)
  io_Copy : H -> H -> W -> option error * W;
  (** [f.Sync()] and [f.Close()] *)
  file_Sync : H -> W -> option error * W;
  file_Close : H -> W -> option error * W
}.

(** ** Program state

    The package-level variables of [main.go] (the flags, once parsed, and
    [matchingPaths]), the world, and the lines written so far. *)
Record state (W : Type) : Type := mkState {
  flagSource : string;
  flagKeyword : string;
  flagDestination : string;
  flagGroupSize : Z;
  flagDryRun : bool;
  flagDebug : bool;
  flagMax : Z;
  matchingPaths : list string;
  world : W;
  output : list line
}.
Arguments mkState {W}.
Arguments flagSource {W}.
Arguments flagKeyword {W}.
Arguments flagDestination {W}.
Arguments flagGroupSize {W}.
Arguments flagDryRun {W}.
Arguments flagDebug {W}.
Arguments flagMax {W}.
Arguments matchingPaths {W}.
Arguments world {W}.
Arguments output {W}.

Definition set_flagKeyword {W} (v : string) (s : state W) : state W :=
  mkState (flagSource s) v (flagDestination s) (flagGroupSize s) (flagDryRun s)
          (flagDebug s) (flagMax s) (matchingPaths s) (world s) (output s).

Definition set_flagDestination {W} (v : string) (s : state W) : state W :=
  mkState (flagSource s) (flagKeyword s) v (flagGroupSize s) (flagDryRun s)
          (flagDebug s) (flagMax s) (matchingPaths s) (world s) (output s).

Definition set_matchingPaths {W} (v : list string) (s : state W) : state W :=
  mkState (flagSource s) (flagKeyword s) (flagDestination s) (flagGroupSize s)
          (flagDryRun s) (flagDebug s) (flagMax s) v (world s) (output s).

Definition set_world {W} (v : W) (s : state W) : state W :=
  mkState (flagSource s) (flagKeyword s) (flagDestination s) (flagGroupSize s)
          (flagDryRun s) (flagDebug s) (flagMax s) (matchingPaths s) v (output s).

Definition set_output {W} (v : list line) (s : state W) : state W :=
  mkState (flagSource s) (flagKeyword s) (flagDestination s) (flagGroupSize s)
          (flagDryRun s) (flagDebug s) (flagMax s) (matchingPaths s) (world s) v.

(** ** The monad of Go statements: state, panics and [os.Exit] *)

Definition M (W A : Type) : Type := state W -> outcome A * state W.

Definition ret {W A} (a : A) : M W A := fun s => (Return a, s).

Definition bind {W A B} (m : M W A) (k : A -> M W B) : M W B :=
  fun s =>
    match m s with
    | (Return a, s') => k a s'
    | (Panic msg, s') => (Panic msg, s')
    | (Exit code, s') => (Exit code, s')
    end.

Notation "x <- m ;; k" := (bind m (fun x => k))
  (at level 100, m at next level, right associativity).
Notation "m ;; k" := (bind m (fun _ => k))
  (at level 100, right associativity).

Definition gets {W A} (f : state W -> A) : M W A := fun s => (Return (f s), s).
Definition modify {W} (f : state W -> state W) : M W unit := fun s => (Return tt, f s).
Definition panic {W A} (msg : string) : M W A := fun s => (Panic msg, s).
Definition os_Exit {W A} (code : Z) : M W A := fun s => (Exit code, s).

(** A call that changes the world, and one that only reads it. *)
Definition sys {W A} (op : W -> A * W) : M W A :=
  fun s => let (a, w) := op (world s) in (Return a, set_world w s).
Definition ask {W A} (op : W -> A) : M W A := gets (fun s => op (world s)).

Definition emit {W} (l : line) : M W unit :=
  modify (fun s => set_output (output s ++ [l]) s).
Definition fmt_Print {W} (text : string) : M W unit := emit (Stdout text).
Definition log_Print {W} (text : string) : M W unit := emit (Logged text).
Definition flag_Usage {W} : M W unit := emit UsageText.

Definition when {W} (b : bool) (m : M W unit) : M W unit := if b then m else ret tt.

(** The final state and the outcome of a run. *)
Definition exec {W A} (m : M W A) (s : state W) : state W := snd (m s).
Definition eval {W A} (m : M W A) (s : state W) : outcome A := fst (m s).

(** A result that is no error: nil, or a panic. *)
Definition quiet {W A} (r : outcome (option A) * state W) : Prop :=
  (exists s', r = (Return None, s')) \/ (exists msg s', r = (Panic msg, s')).

(** Same package-level variables; the world and the output may differ. *)
Definition same_globals {W} (s s' : state W) : Prop :=
  flagSource s' = flagSource s /\ flagKeyword s' = flagKeyword s /\
  flagDestination s' = flagDestination s /\ flagGroupSize s' = flagGroupSize s /\
  flagDryRun s' = flagDryRun s /\ flagDebug s' = flagDebug s /\
  flagMax s' = flagMax s /\ matchingPaths s' = matchingPaths s.

(** ** [path/filepath.Walk]

    The library function, as [path/filepath] defines it: the callback is
    called on the root first; a directory whose listing failed is reported to
    the callback with that error and not entered; an entry whose [Lstat]
    failed is reported with a nil [FileInfo]; the first error of the callback
    other than [SkipDir] ends the walk and is the result. *)
Definition WalkFunc (W : Type) : Type :=
  string -> option FileInfo -> option error -> M W (option error).

Section Walk.
Context {W H : Type} {R : Runtime W H}.

Definition stops_walk (child : entry) (e : error) : bool :=
  match child with
  | NoStat _ _ => bool_decide (e <> SkipDir)
  | File _ => true
  | Dir _ _ _ => bool_decide (e <> SkipDir)
  end.

(** The loop over the names of a directory, given the walk of one entry. *)
Fixpoint walk_names (walk_entry : string -> entry -> M W (option error))
         (path : string) (entries : list entry) : M W (option error) :=
  match entries with
  | [] => ret None
  | child :: rest =>
      let filename := filepath_Join path (entry_name child) in
      err <- walk_entry filename child ;;
      match err with
      | Some e =>
          if stops_walk child e then ret (Some e)
          else walk_names walk_entry path rest
      | None => walk_names walk_entry path rest
      end
  end.

Fixpoint walk (walkFn : WalkFunc W) (path : string) (t : entry) {struct t}
  : M W (option error) :=
  match t with
  | NoStat _ e => walkFn path None (Some e)
  | File n => walkFn path (Some {| fi_Name := n; fi_IsDir := false |}) None
  | Dir n listing entries =>
      err1 <- walkFn path (Some {| fi_Name := n; fi_IsDir := true |}) listing ;;
      if not_nil listing || not_nil err1 then ret err1
      else walk_names (walk walkFn) path entries
  end.

Definition Walk (root : string) (fn : WalkFunc W) : M W (option error) :=
  t <- ask (os_tree root) ;;
  err <- walk fn root t ;;
  if bool_decide (err = Some SkipDir) || bool_decide (err = Some SkipAll)
  then ret None else ret err.

End Walk.

(** ** The program *)

Section Program.
Context {W H : Type} {R : Runtime W H}.

(** [visit], lines 129-148.  [fi.IsDir()] on the nil [FileInfo] that
    [filepath.Walk] passes along with an [Lstat] error is a nil
    dereference. *)
Definition visit (path : string) (fi : option FileInfo) (err : option error)
  : M W (option error) :=
  match fi with
  | None => panic "runtime error: invalid memory address or nil pointer dereference"
  | Some info =>
      if fi_IsDir info then ret None
      else
        let filename := strings_ToLower (Go.Base path) in
        let ext := Go.Ext filename in
        if bool_decide (ext <> ".wav"%string) && bool_decide (ext <> ".aiff"%string)
           && bool_decide (ext <> ".aif"%string)
        then ret None
        else
          keyword <- gets flagKeyword ;;
          (if Go.Contains filename keyword then
             debug <- gets flagDebug ;;
             when debug (fmt_Print ("match found: " +:+ path)) ;;
             modify (fun s => set_matchingPaths (matchingPaths s ++ [path]) s)
           else ret tt) ;;
          ret None
  end.

(** [findMatchingFiles], lines 114-126.  The [keyword] parameter is not
    read: [visit] reads the flag.  A nil slice is the empty list. *)
Definition findMatchingFiles (src keyword : string)
  : M W (list string * option error) :=
  if bool_decide (src = ""%string)
  then ret ([], Some (Err "missing source folder location"))
  else
    abs <- ask (filepath_Abs src) ;;
    match abs with
    | inr e =>
        ret ([], Some (Err ("couldn't get the absolute path of the source - "
                            +:+ Error e)))
    | inl fullPath =>
        err <- Walk fullPath visit ;;
        found <- gets matchingPaths ;;
        ret (found, err)
    end.

(** [copyFileContents], lines 170-195.  The deferred calls run when the
    function returns, last deferred first: [out.Close()], whose error is
    the result when there was none before, then [in.Close()]. *)
Definition copyFileContents (src dst : string) : M W (option error) :=
  dry <- gets flagDryRun ;;
  if dry then
    log_Print ("Copying " +:+ src +:+ " to " +:+ dst) ;;
    ret None
  else
    opened <- sys (os_Open src) ;;
    match opened with
    | inr e => ret (Some e)
    | inl in_ =>
        created <- sys (os_Create dst) ;;
        match created with
        | inr e =>
            sys (file_Close in_) ;;
            ret (Some e)
        | inl out =>
            copied <- sys (io_Copy out in_) ;;
            match copied with
            | Some e =>
                sys (file_Close out) ;;
                sys (file_Close in_) ;;
                ret (Some e)
            | None =>
                err <- sys (file_Sync out) ;;
                cerr <- sys (file_Close out) ;;
                sys (file_Close in_) ;;
                ret (match err with None => cerr | Some e => Some e end)
            end
        end
    end.

(** The [for] loop of [copyFilesToGroup], lines 156-166. *)
Fixpoint copy_each (subFolderPath : string) (srcPaths : list string) : M W unit :=
  match srcPaths with
  | [] => ret tt
  | src :: rest =>
      let filename := Go.Base src in
      let dest := filepath_Join subFolderPath filename in
      debug <- gets flagDebug ;;
      when debug (fmt_Print ("Copying " +:+ src +:+ " to " +:+ dest)) ;;
      err <- copyFileContents src dest ;;
      match err with
      | Some e =>
          log_Print ("Failed to copy " +:+ src +:+ " to " +:+ dest
                     +:+ ", continuing anyway - " +:+ Error e)
      | None => ret tt
      end ;;
      copy_each subFolderPath rest
  end.

Definition group_folder (destPath : string) (idx : Z) : string :=
  filepath_Join destPath ("group_" +:+ pretty idx).

(** [copyFilesToGroup], lines 151-168.  The result of [os.MkdirAll] is
    dropped. *)
Definition copyFilesToGroup (srcPaths : list string) (destPath : string) (idx : Z)
  : M W (option error) :=
  let subFolderPath := group_folder destPath idx in
  sys (os_MkdirAll subFolderPath 511) ;;
  fmt_Print ("Copying " +:+ pretty (Z.of_nat (length srcPaths)) +:+ " files to "
             +:+ subFolderPath) ;;
  copy_each subFolderPath srcPaths ;;
  ret None.

(** The call of [copyFilesToGroup] with its error branch, as it stands at
    lines 92-94 and 107-109. *)
Definition copy_group (files : list string) (destPath : string) (groupIdx : Z)
  : M W unit :=
  err <- copyFilesToGroup files destPath groupIdx ;;
  match err with
  | Some e =>
      log_Print ("Something went wrong when copying the matching files into the group "
                 +:+ pretty groupIdx +:+ " folder - " +:+ Error e)
  | None => ret tt
  end.

(** The local variables of [main] that the loop of lines 82-104 updates. *)
Record locals : Type := mkLocals {
  groupIdx : Z;
  fileIdx : Z;
  files : list string
}.

(** The loop [for i, filePath := range matchingPaths], lines 82-104, from
    index [i] on. *)
Fixpoint range_loop (destPath : string) (i : Z) (rest : list string) (v : locals)
  : M W locals :=
  match rest with
  | [] => ret v
  | filePath :: rest' =>
      max <- gets flagMax ;;
      if i >=? max then
        fmt_Print ("We reached the max amount of samples to copy: " +:+ pretty max) ;;
        ret v
      else
        v1 <- (if fileIdx v >=? 128 then
                 copy_group (files v) destPath (groupIdx v) ;;
                 ret (mkLocals (groupIdx v + 1) 0 [])
               else ret v) ;;
        range_loop destPath (i + 1) rest'
                   (mkLocals (groupIdx v1) (fileIdx v1 + 1) (files v1 ++ [filePath]))
  end.

(** The left-overs step, lines 106-110. *)
Definition left_overs (destPath : string) (v : locals) : M W unit :=
  when (0 <? Z.of_nat (length (files v)))
       (copy_group (files v) destPath (groupIdx v)).

(** Lines 78-110 of [main]: the loop, then the left-overs. *)
Definition grouping (destPath : string) : M W unit :=
  found <- gets matchingPaths ;;
  v <- range_loop destPath 0 found (mkLocals 1 0 []) ;;
  left_overs destPath v.

(** The tilde expansion of lines 57-64: [p[:2]] panics on a path shorter
    than two bytes. *)
Definition expand (p home : string) : M W string :=
  match Go.slice_to p 2 with
  | None => panic "runtime error: slice bounds out of range"
  | Some head =>
      if bool_decide (head = "~/"%string)
      then ret (Go.Replace_first p "~" home)
      else ret p
  end.

(** [main], lines 32-112, after [flag.Parse()] has filled the flags. *)
Definition main : M W unit :=
  source <- gets flagSource ;;
  if bool_decide (source = ""%string) then
    log_Print "You need to pass a source path to search: -src=<path where to search>" ;;
    flag_Usage ;;
    os_Exit 1
  else
  keyword <- gets flagKeyword ;;
  if bool_decide (keyword = ""%string) then
    log_Print "You need to pass a keyword to search for: -keyword=<path where to search>" ;;
    flag_Usage ;;
    os_Exit 1
  else
  modify (set_flagKeyword (strings_ToLower keyword)) ;;
  usr <- ask user_Current ;;
  match usr with
  | inr _ =>
      log_Print "Failed to get the user home directory" ;;
      os_Exit 1
  | inl HomeDir =>
      destination <- gets flagDestination ;;
      when (bool_decide (destination = ""%string))
           (modify (set_flagDestination HomeDir)) ;;
      source <- gets flagSource ;;
      sourcePath <- expand source HomeDir ;;
      destination <- gets flagDestination ;;
      destPath <- expand destination HomeDir ;;
      keyword <- gets flagKeyword ;;
      found <- findMatchingFiles sourcePath keyword ;;
      modify (set_matchingPaths (fst found)) ;;
      match snd found with
      | Some e =>
          log_Print ("Something went wrong looking for matching files " +:+ Error e) ;;
          os_Exit 1
      | None =>
          n <- gets (fun s => Z.of_nat (length (matchingPaths s))) ;;
          fmt_Print ("Found " +:+ pretty n +:+ " matching files to copy") ;;
          grouping destPath ;;
          fmt_Print ("Your files are in " +:+ destPath)
      end
  end.

End Program.

(** ** A runtime that records the calls made

    [traced R] behaves as [R] does and appends every call that can change the
    world to a trace.  Nothing of the program depends on it: it is the
    observer of the theorems that say which calls a run makes. *)
Inductive call (H : Type) : Type :=
| CMkdirAll (path : string) (perm : Z)
| COpen (path : string)
| CCreate (path : string)
| CCopy (dst src : H)
| CSync (f : H)
| CClose (f : H).
Arguments CMkdirAll {H}.
Arguments COpen {H}.
Arguments CCreate {H}.
Arguments CCopy {H}.
Arguments CSync {H}.
Arguments CClose {H}.

Definition recording {W H A} (c : call H) (op : W -> A * W)
  : W * list (call H) -> A * (W * list (call H)) :=
  fun wt => let (a, w) := op (fst wt) in (a, (w, snd wt ++ [c])).

Definition traced {W H} (R : Runtime W H) : Runtime (W * list (call H)) H := {|
  strings_ToLower := strings_ToLower;
  filepath_Join := filepath_Join;
  filepath_Abs := fun p wt => filepath_Abs p (fst wt);
  user_Current := fun wt => user_Current (fst wt);
  os_tree := fun p wt => os_tree p (fst wt);
  os_MkdirAll := fun p perm => recording (CMkdirAll p perm) (os_MkdirAll p perm);
  os_Open := fun p => recording (COpen p) (os_Open p);
  os_Create := fun p => recording (CCreate p) (os_Create p);
  io_Copy := fun dst src => recording (CCopy dst src) (io_Copy dst src);
  file_Sync := fun f => recording (CSync f) (file_Sync f);
  file_Close := fun f => recording (CClose f) (file_Close f)
|}.

(** The calls recorded so far. *)
Definition trace {W H} (s : state (W * list (call H))) : list (call H) := snd (world s).

(** The paths given to [os.Open], in call order: the files whose copy was
    started. *)
Fixpoint opened {H} (tr : list (call H)) : list string :=
  match tr with
  | [] => []
  | COpen p :: r => p :: opened r
  | _ :: r => opened r
  end.

(** The paths given to [os.MkdirAll], in call order. *)
Fixpoint made_dirs {H} (tr : list (call H)) : list string :=
  match tr with
  | [] => []
  | CMkdirAll p _ :: r => p :: made_dirs r
  | _ :: r => made_dirs r
  end.

Definition is_mkdir {H} (c : call H) : bool :=
  match c with
  | CMkdirAll _ _ => true
  | _ => false
  end.

Definition no_mkdir {H} (tr : list (call H)) : Prop :=
  Forall (fun c => is_mkdir c = false) tr.

Definition only_mkdir {H} (tr : list (call H)) : Prop :=
  Forall (fun c => is_mkdir c = true) tr.

(** What one call of a copy function adds to the trace: [tr] holds no
    [os.MkdirAll]; it is empty in a dry run and starts the copy of [paths],
    in order, otherwise. *)
Definition copies {W H} (paths : list string) (s s' : state (W * list (call H)))
           (tr : list (call H)) : Prop :=
  trace s' = trace s ++ tr /\ no_mkdir tr /\
  opened tr = (if flagDryRun s then [] else paths) /\
  (flagDryRun s = true -> tr = []) /\
  same_globals s s'.

(** ** An in-memory runtime

    Files are byte strings stored by path.  Nothing can be created at a path
    that has one of the [locked] prefixes.  [os.Create] truncates, as
    [O_TRUNC] does; an open file is its path; [io.Copy] writes what the
    source holds when the copy runs.  [strings.ToLower] is the ASCII one;
    [filepath.Join] and [filepath.Abs] clean their result as the library
    does.  A file is named by one path only: there are no links, and the
    statements about the files of this runtime speak of absolute, clean
    paths. *)
Module Sim.

Record fs : Type := mkFs {
  files : gmap string string;
  dirs : gset string;
  locked : list string;
  tree : entry;
  home : string + error;
  cwd : string + error
}.

Definition is_locked (p : string) (w : fs) : bool :=
  existsb (fun l => String.prefix l p) (locked w).

Definition with_files (m : gmap string string) (w : fs) : fs :=
  mkFs m (dirs w) (locked w) (tree w) (home w) (cwd w).

Definition with_dirs (d : gset string) (w : fs) : fs :=
  mkFs (files w) d (locked w) (tree w) (home w) (cwd w).

Definition Join (a b : string) : string := Go.Join a b.

(** [filepath.Abs]: an absolute path is cleaned, another one is joined to the
    working directory. *)
Definition Abs (p : string) (w : fs) : string + error :=
  if Go.IsAbs p then inl (Go.Clean p)
  else
    match cwd w with
    | inl d => inl (Join d p)
    | inr e => inr e
    end.

Definition MkdirAll (p : string) (perm : Z) (w : fs) : option error * fs :=
  if is_locked p w then (Some (Err ("mkdir " +:+ p +:+ ": permission denied")), w)
  else (None, with_dirs ({[ p ]} ∪ dirs w) w).

Definition Open (p : string) (w : fs) : (string + error) * fs :=
  match files w !! p with
  | Some _ => (inl p, w)
  | None => (inr (Err ("open " +:+ p +:+ ": no such file or directory")), w)
  end.

Definition Create (p : string) (w : fs) : (string + error) * fs :=
  if is_locked p w then (inr (Err ("open " +:+ p +:+ ": permission denied")), w)
  else (inl p, with_files (<[ p := ""%string ]> (files w)) w).

Definition Copy (dst src : string) (w : fs) : option error * fs :=
  match files w !! src with
  | Some bytes => (None, with_files (<[ dst := bytes ]> (files w)) w)
  | None => (Some (Err ("read " +:+ src +:+ ": file already closed")), w)
  end.

Definition runtime : Runtime fs string := {|
  strings_ToLower := Go.ToLower_ascii;
  filepath_Join := Join;
  filepath_Abs := Abs;
  user_Current := home;
  os_tree := fun _ w => tree w;
  os_MkdirAll := MkdirAll;
  os_Open := Open;
  os_Create := Create;
  io_Copy := Copy;
  file_Sync := fun _ w => (None, w);
  file_Close := fun _ w => (None, w)
|}.

(** The state of a run that starts in world [w] with the given flags. *)
Definition start {W} (src keyword dest : string) (perFolder : Z) (dry debug : bool)
           (max : Z) (w : W) : state W :=
  mkState src keyword dest perFolder dry debug max [] w [].

End Sim.

(** ** Definitions used by the statements *)

(** The batches the specification asks for: [l] cut into consecutive pieces
    of [n] elements, the last one possibly shorter. *)
Fixpoint chunks_fuel {A} (fuel n : nat) (l : list A) : list (list A) :=
  match fuel with
  | O => []
  | S fuel' =>
      match l with
      | [] => []
      | _ :: _ => take n l :: chunks_fuel fuel' n (drop n l)
      end
  end.

Definition chunks {A} (n : nat) (l : list A) : list (list A) :=
  chunks_fuel (length l) n l.

(** The batches a trace shows: each [os.MkdirAll] opens a batch, made of the
    files opened before the next [os.MkdirAll]. *)
Fixpoint leading_opens {H} (tr : list (call H)) : list string :=
  match tr with
  | [] => []
  | CMkdirAll _ _ :: _ => []
  | COpen p :: r => p :: leading_opens r
  | _ :: r => leading_opens r
  end.

Fixpoint batches_of {H} (tr : list (call H)) : list (list string) :=
  match tr with
  | [] => []
  | CMkdirAll _ _ :: r => leading_opens r :: batches_of r
  | _ :: r => batches_of r
  end.

(** The matches below the cap. *)
Definition kept {W} (s : state W) : list string :=
  take (Z.to_nat (flagMax s)) (matchingPaths s).

Section Plans.
Context {W H : Type} {R : Runtime W H}.

Definition max_notice (max : Z) : M W unit :=
  fmt_Print ("We reached the max amount of samples to copy: " +:+ pretty max).

(** What the grouping phase is meant to do with a list of batches: copy
    them in order into the groups [g], [g+1], ...; when the list of matches
    was cut short, the notice comes before the last batch. *)
Fixpoint plan_exec (destPath : string) (g : Z) (max : Z) (truncated : bool)
         (batches : list (list string)) : M W unit :=
  match batches with
  | [] => when truncated (max_notice max)
  | b :: r =>
      match r with
      | [] => when truncated (max_notice max) ;; copy_group b destPath g
      | _ :: _ => copy_group b destPath g ;; plan_exec destPath (g + 1) max truncated r
      end
  end.

(** The folders of the groups [g], [g+1], ..., [g+n-1]. *)
Definition group_folders (destPath : string) (g : Z) (n : nat) : list string :=
  map (fun k => group_folder destPath (g + Z.of_nat k)) (seq 0 n).

(** The extension test of the specification: one of the three extensions,
    whatever the case of the file name. *)
Definition allowed_ext (ext : string) : bool :=
  bool_decide (ext ∈ [".wav"; ".aiff"; ".aif"]%string).

(** Both tests on a path, for the keyword as the flag holds it. *)
Definition passes_filters (keyword path : string) : bool :=
  let filename := strings_ToLower (Go.Base path) in
  allowed_ext (Go.Ext filename) && Go.Contains filename keyword.

(** The match of the specification: the extension is allowed and the
    lower-cased file name contains the lower-cased keyword. *)
Definition is_match (keyword path : string) : bool :=
  passes_filters (strings_ToLower keyword) path.

(** The paths of the files below a root, in walk order. *)
Fixpoint tree_files (path : string) (t : entry) : list string :=
  match t with
  | NoStat _ _ => []
  | File _ => [path]
  | Dir _ _ entries =>
      flat_map (fun child => tree_files (filepath_Join path (entry_name child)) child)
               entries
  end.

(** [visit] on a file that passes both tests: the debug line, then the
    path is appended to [matchingPaths]. *)
Definition note_match (s : state W) (path : string) : state W :=
  set_matchingPaths (matchingPaths s ++ [path])
    (if flagDebug s
     then set_output (output s ++ [Stdout ("match found: " +:+ path)]) s
     else s).

Definition note_matches (s : state W) (paths : list string) : state W :=
  foldl note_match s paths.

(** From [s] to [s'] the keyword flag is kept and [matchingPaths] has grown
    by paths that pass both tests. *)
Definition found_soundly (s s' : state W) : Prop :=
  exists added,
    matchingPaths s' = matchingPaths s ++ added
    /\ Forall (fun p => passes_filters (flagKeyword s) p = true) added
    /\ flagKeyword s' = flagKeyword s.

End Plans.

(** A tree in which every entry can be stat'ed and every directory listed. *)
Fixpoint readable (t : entry) : bool :=
  match t with
  | NoStat _ _ => false
  | File _ => true
  | Dir _ listing entries =>
      negb (not_nil listing) && forallb readable entries
  end.

(** ** Concrete worlds for the examples *)

(** The scenario of the specification: four files, two of which match
    [kick]. *)
Definition ex_tree : entry :=
  Dir "s" None [File "KICK_perc.aiff"; File "kick.txt"; File "kick_808.wav";
                File "snare.wav"].

Definition ex_files : gmap string string :=
  list_to_map [("/s/KICK_perc.aiff", "perc"); ("/s/kick.txt", "text");
               ("/s/kick_808.wav", "808"); ("/s/snare.wav", "snare")]%string.

Definition ex_world : Sim.fs :=
  Sim.mkFs ex_files ∅ [] ex_tree (inl "/home/u"%string) (inl "/"%string).

(** The same, with the destination [/ro] read-only. *)
Definition ex_world_ro : Sim.fs :=
  Sim.mkFs ex_files ∅ ["/ro"%string] ex_tree (inl "/home/u"%string) (inl "/"%string).

(** A source tree with a directory that cannot be listed, which holds a
    matching file, next to a matching file that can be reached. *)
Definition ex_tree_unlisted : entry :=
  Dir "s" None
      [Dir "private" (Some (Err "open /s/private: permission denied"))
           [File "kick_hidden.wav"];
       File "kick_808.wav"].

Definition ex_world_unlisted : Sim.fs :=
  Sim.mkFs (list_to_map [("/s/private/kick_hidden.wav", "hidden");
                         ("/s/kick_808.wav", "808")]%string)
           ∅ [] ex_tree_unlisted (inl "/home/u"%string) (inl "/"%string).

(** A source tree with an entry that cannot be stat'ed. *)
Definition ex_tree_nostat : entry :=
  Dir "s" None
      [NoStat "gone.wav" (Err "lstat /s/gone.wav: no such file or directory");
       File "kick_808.wav"].

Definition ex_world_nostat : Sim.fs :=
  Sim.mkFs (list_to_map [("/s/kick_808.wav", "808")]%string)
           ∅ [] ex_tree_nostat (inl "/home/u"%string) (inl "/"%string).

(** Three matches, as the discovery of three files leaves them. *)
Definition ex_three : list string :=
  ["/s/a.wav"; "/s/b.wav"; "/s/c.wav"]%string.

Definition ex_world_three : Sim.fs :=
  Sim.mkFs (list_to_map [("/s/a.wav", "a"); ("/s/b.wav", "b"); ("/s/c.wav", "c")]%string)
           ∅ [] (Dir "s" None [File "a.wav"; File "b.wav"; File "c.wav"])
           (inl "/home/u"%string) (inl "/"%string).

(** A state with the given matches already found. *)
Definition ex_found {W} (found : list string) (perFolder : Z) (dry : bool) (max : Z)
           (w : W) : state W :=
  mkState "/s" "" "/out" perFolder dry false max found w [].

(** Two files of which the first does not exist any more when the copy
    runs. *)
Definition ex_world_missing : Sim.fs :=
  Sim.mkFs (list_to_map [("/s/kick_808.wav", "808")]%string)
           ∅ [] (Dir "s" None [File "gone.wav"; File "kick_808.wav"])
           (inl "/home/u"%string) (inl "/"%string).

(** ** Definitions for the properties of the rest of the code *)

(** The path the tilde expansion of lines 57-64 gives for a path of two
    bytes or more. *)
Definition expanded (p home : string) : string :=
  if String.prefix "~/" p then home +:+ Go.drop_bytes 1 p else p.

(** The destination [main] works with: the flag, or the home directory when
    the flag is empty (lines 52-54). *)
Definition destination_or_home {W} (s : state W) (home : string) : string :=
  if bool_decide (flagDestination s = ""%string) then home else flagDestination s.

(** No entry that the walk reaches fails to be stat'ed: the walk does not
    enter a directory that cannot be listed. *)
Fixpoint stat_ok (t : entry) : bool :=
  match t with
  | NoStat _ _ => false
  | File _ => true
  | Dir _ listing entries => not_nil listing || forallb stat_ok entries
  end.

(** The paths given to [os.Create], in call order. *)
Fixpoint created {H} (tr : list (call H)) : list string :=
  match tr with
  | [] => []
  | CCreate p :: r => p :: created r
  | _ :: r => created r
  end.

(** The handles given to [Close], in call order. *)
Fixpoint closed {H} (tr : list (call H)) : list H :=
  match tr with
  | [] => []
  | CClose f :: r => f :: closed r
  | _ :: r => closed r
  end.

(** A path as the discovery gives it: absolute and clean. *)
Definition canonical (p : string) : bool :=
  Go.IsAbs p && bool_decide (Go.Clean p = p).

(** The calls of one per-file copy: it stops at the first failure and closes
    what it has opened, the destination first. *)
Inductive copy_calls {H} (src dst : string) : option error -> list (call H) -> Prop :=
| calls_open_failed e :
    copy_calls src dst (Some e) [COpen src]
| calls_create_failed e in_ :
    copy_calls src dst (Some e) [COpen src; CCreate dst; CClose in_]
| calls_copy_failed e in_ out :
    copy_calls src dst (Some e)
               [COpen src; CCreate dst; CCopy out in_; CClose out; CClose in_]
| calls_all r in_ out :
    copy_calls src dst r
               [COpen src; CCreate dst; CCopy out in_; CSync out; CClose out; CClose in_].

Section MoreDefinitions.
Context {W H : Type} {R : Runtime W H}.

(** The paths of the files the walk reaches: those of [tree_files] that are
    not below a directory that cannot be listed. *)
Fixpoint walked_files (path : string) (t : entry) : list string :=
  match t with
  | NoStat _ _ => []
  | File _ => [path]
  | Dir _ listing entries =>
      if not_nil listing then []
      else flat_map (fun child => walked_files (filepath_Join path (entry_name child)) child)
                    entries
  end.

(** Where [copyFilesToGroup] puts a source file (lines 157-158). *)
Definition dest_name (subFolderPath src : string) : string :=
  filepath_Join subFolderPath (Go.Base src).

(** The lines one file of a batch gives in a dry run: the debug line, if
    asked for, and the line of [copyFileContents]. *)
Definition dry_lines (debug : bool) (subFolderPath src : string) : list line :=
  (if debug
   then [Stdout ("Copying " +:+ src +:+ " to " +:+ dest_name subFolderPath src)]
   else [])
  ++ [Logged ("Copying " +:+ src +:+ " to " +:+ dest_name subFolderPath src)].

(** The lines a live batch writes when no copy fails: the debug lines, if
    asked for. *)
Definition live_lines (debug : bool) (subFolderPath : string) (srcPaths : list string)
  : list line :=
  if debug
  then map (fun src => Stdout ("Copying " +:+ src +:+ " to " +:+ dest_name subFolderPath src))
           srcPaths
  else [].

(** The files the operating system hands to a live per-file copy that
    starts in world [w], in the order in which it hands them out: the source
    when [os.Open] succeeds, and then the destination when [os.Create]
    succeeds in the world [os.Open] has left. *)
Definition handles_given (src dst : string) (w : W) : list H :=
  match os_Open src w with
  | (inl in_, w1) =>
      in_ :: match fst (os_Create dst w1) with
             | inl out => [out]
             | inr _ => []
             end
  | (inr _, _) => []
  end.

(** Where the files of the batches are put: those of the first batch in the
    folder of group [g], those of the next in the folder of group [g+1], and
    so on. *)
Fixpoint batch_dests (destPath : string) (g : Z) (batches : list (list string))
  : list string :=
  match batches with
  | [] => []
  | b :: r => map (dest_name (group_folder destPath g)) b ++ batch_dests destPath (g + 1) r
  end.

End MoreDefinitions.

(** Two sources of the same name in two directories, and a file that a
    former run has put into its group folder. *)
Definition ex_world_twins : Sim.fs :=
  Sim.mkFs (list_to_map [("/s/a/kick.wav", "first"); ("/s/b/kick.wav", "second");
                         ("/out/group_1/old.wav", "old")]%string)
           ∅ [] (Dir "s" None [Dir "a" None [File "kick.wav"];
                               Dir "b" None [File "kick.wav"]])
           (inl "/home/u"%string) (inl "/"%string).

(** A world whose current user has the root directory as home. *)
Definition ex_world_root_home : Sim.fs :=
  Sim.mkFs ex_files ∅ [] ex_tree (inl "/"%string) (inl "/"%string).

(** A world in which the current user and the working directory cannot be
    found. *)
Definition ex_world_lost : Sim.fs :=
  Sim.mkFs ex_files ∅ [] ex_tree (inr (Err "user: unknown userid 1000"))
           (inr (Err "getwd: no such file or directory")).

(** The same, with a known user. *)
Definition ex_world_no_cwd : Sim.fs :=
  Sim.mkFs ex_files ∅ [] ex_tree (inl "/home/u"%string)
           (inr (Err "getwd: no such file or directory")).

(** The state in which [main] starts the discovery (after lines 44 and
    52-54): the keyword is lower-cased and an empty destination flag holds
    the home directory. *)
Definition started {W H} {R : Runtime W H} (s : state W) (home : string) : state W :=
  let s1 := set_flagKeyword (strings_ToLower (flagKeyword s)) s in
  if bool_decide (flagDestination s = ""%string) then set_flagDestination home s1 else s1.

(** ** The monad *)

Section MonadLaws.
Context {W : Type}.

Lemma bind_ret_l {A B} (a : A) (k : A -> M W B) (s : state W) :
  bind (ret a) k s = k a s.
Proof. reflexivity. Qed.

Lemma bind_assoc {A B C} (m : M W A) (f : A -> M W B) (g : B -> M W C) (s : state W) :
  bind (bind m f) g s = bind m (fun a => bind (f a) g) s.
Proof. unfold bind. destruct (m s) as [[a|msg|code] s']; reflexivity. Qed.

Lemma bind_ext {A B} (m : M W A) (f g : A -> M W B) (s : state W) :
  (forall a s', f a s' = g a s') -> bind m f s = bind m g s.
Proof. intros E. unfold bind. destruct (m s) as [[a|msg|code] s']; auto. Qed.

Lemma bind_returns {A B} (m : M W A) (k : A -> M W B) (s s' : state W) (a : A) :
  m s = (Return a, s') -> bind m k s = k a s'.
Proof. intros E. unfold bind. now rewrite E. Qed.

End MonadLaws.

(** ** Batches *)

Section Chunks.
Context {A : Type}.
Implicit Types l : list A.

Lemma chunks_fuel_enough n l f1 f2 :
  (0 < n)%nat -> (length l <= f1)%nat -> (length l <= f2)%nat ->
  chunks_fuel f1 n l = chunks_fuel f2 n l.
Proof.
  intros Hn. revert l f2.
  induction f1 as [|f1 IH]; intros l f2 H1 H2.
  - destruct l; [|simpl in H1; lia]. now destruct f2.
  - destruct l as [|x l]; [now destruct f2|].
    destruct f2 as [|f2]; [simpl in H2; lia|].
    simpl. f_equal. apply IH.
    + rewrite length_drop. simpl in *. lia.
    + rewrite length_drop. simpl in *. lia.
Qed.

Lemma chunks_nil n : chunks n (@nil A) = [].
Proof. reflexivity. Qed.

Lemma chunks_cons n l :
  (0 < n)%nat -> l <> [] -> chunks n l = take n l :: chunks n (drop n l).
Proof.
  intros Hn Hl. unfold chunks. destruct l as [|x l]; [done|].
  simpl. f_equal.
  apply chunks_fuel_enough; [done| |done].
  rewrite length_drop. simpl. lia.
Qed.

(** A batch that is full, followed by more. *)
Lemma chunks_full n (b l : list A) :
  (0 < n)%nat -> length b = n -> chunks n (b ++ l) = b :: chunks n l.
Proof.
  intros Hn Hb. rewrite chunks_cons; [|done|].
  - rewrite take_app_length', drop_app_length'; done.
  - destruct b; [simpl in Hb; lia | done].
Qed.

(** A batch that is not over-full, followed by nothing. *)
Lemma chunks_short n (b : list A) :
  b <> [] -> (length b <= n)%nat -> chunks n b = [b].
Proof.
  intros Hb Hn. rewrite chunks_cons; [| destruct b; [done | simpl in Hn; lia] | done].
  rewrite take_ge, drop_ge by done. reflexivity.
Qed.

Lemma concat_chunks n l : (0 < n)%nat -> concat (chunks n l) = l.
Proof.
  intros Hn.
  induction l as [l IH] using (induction_ltof1 _ (@length A)). unfold ltof in IH.
  destruct l as [|x l]; [done|].
  rewrite chunks_cons by done. cbn [concat].
  rewrite IH; [apply take_drop|].
  rewrite length_drop. simpl. lia.
Qed.

(** The [i]-th batch is the [i]-th window of [n] elements. *)
Lemma chunks_lookup n l i :
  (0 < n)%nat ->
  chunks n l !! i =
    if (i * n <? length l)%nat then Some (take n (drop (i * n) l)) else None.
Proof.
  intros Hn. revert l.
  induction i as [|i IH]; intros l.
  - destruct l as [|x l]; [done|].
    rewrite chunks_cons by done. simpl. reflexivity.
  - destruct l as [|x l].
    + simpl. reflexivity.
    + rewrite chunks_cons by done.
      change ((take n (x :: l) :: chunks n (drop n (x :: l))) !! S i)
        with (chunks n (drop n (x :: l)) !! i).
      rewrite IH, length_drop, drop_drop.
      replace (n + i * n)%nat with (S i * n)%nat by lia.
      destruct (Nat.ltb_spec (i * n) (length (x :: l) - n));
        destruct (Nat.ltb_spec (S i * n) (length (x :: l))); try lia; reflexivity.
Qed.

Lemma chunks_length n l :
  (0 < n)%nat -> length (chunks n l) = ((length l + n - 1) / n)%nat.
Proof.
  intros Hn.
  induction l as [l IH] using (induction_ltof1 _ (@length A)). unfold ltof in IH.
  destruct (decide (l = [])) as [->|Hl].
  - simpl. symmetry. apply Nat.div_small. lia.
  - assert (0 < length l)%nat as HL by (destruct l; [done | simpl; lia]).
    rewrite chunks_cons by done. cbn [length].
    rewrite IH by (rewrite length_drop; lia).
    rewrite length_drop.
    destruct (Nat.le_gt_cases n (length l)) as [Hle|Hgt].
    + replace (length l + n - 1)%nat with ((length l - n + n - 1) + 1 * n)%nat by lia.
      rewrite Nat.div_add by lia. lia.
    + replace (length l - n)%nat with 0%nat by lia.
      rewrite (Nat.div_small (0 + n - 1) n) by lia.
      replace (length l + n - 1)%nat with ((length l - 1) + 1 * n)%nat by lia.
      rewrite Nat.div_add by lia.
      rewrite Nat.div_small by lia. reflexivity.
Qed.

End Chunks.

(** ** What the copy functions leave alone *)

Section Frames.
Context {W H : Type} {R : Runtime W H}.

Implicit Types s : state W.

Lemma same_globals_refl s : same_globals s s.
Proof. repeat split. Qed.

Lemma same_globals_trans (s1 s2 s3 : state W) :
  same_globals s1 s2 -> same_globals s2 s3 -> same_globals s1 s3.
Proof. unfold same_globals. intuition congruence. Qed.

Lemma same_globals_world w s : same_globals s (set_world w s).
Proof. repeat split. Qed.

Lemma same_globals_output o s : same_globals s (set_output o s).
Proof. repeat split. Qed.

Lemma bind_gets {A B} (f : state W -> A) (k : A -> M W B) s :
  bind (gets f) k s = k (f s) s.
Proof. reflexivity. Qed.

Lemma bind_emit {B} (l : line) (k : unit -> M W B) s :
  bind (emit l) k s = k tt (set_output (output s ++ [l]) s).
Proof. reflexivity. Qed.

Lemma bind_sys {A B} (op : W -> A * W) (k : A -> M W B) s :
  bind (sys op) k s = k (fst (op (world s))) (set_world (snd (op (world s))) s).
Proof. unfold bind, sys. destruct (op (world s)). reflexivity. Qed.

Lemma sys_eq {A} (op : W -> A * W) s :
  sys op s = (Return (fst (op (world s))), set_world (snd (op (world s))) s).
Proof. unfold sys. destruct (op (world s)). reflexivity. Qed.

Lemma when_returns (b : bool) (m : M W unit) s :
  (exists s', m s = (Return tt, s') /\ same_globals s s') ->
  exists s', when b m s = (Return tt, s') /\ same_globals s s'.
Proof.
  intros Hm. destruct b; [exact Hm|].
  exists s. split; [reflexivity | apply same_globals_refl].
Qed.

Lemma copyFileContents_returns src dst s :
  exists r s', copyFileContents src dst s = (Return r, s') /\ same_globals s s'.
Proof.
  unfold copyFileContents. rewrite bind_gets.
  destruct (flagDryRun s).
  - eexists _, _. split; [reflexivity | repeat split].
  - rewrite bind_sys. destruct (fst (os_Open src (world s))) as [in_|e].
    + rewrite bind_sys. destruct (fst (os_Create dst _)) as [out|e].
      * rewrite bind_sys. destruct (fst (io_Copy out in_ _)) as [e|].
        -- rewrite !bind_sys. eexists _, _. split; [reflexivity | repeat split].
        -- rewrite !bind_sys. eexists _, _. split; [reflexivity | repeat split].
      * rewrite bind_sys. eexists _, _. split; [reflexivity | repeat split].
    + eexists _, _. split; [reflexivity | repeat split].
Qed.

Lemma copy_each_returns subFolderPath srcPaths : forall s,
  exists s', copy_each subFolderPath srcPaths s = (Return tt, s') /\ same_globals s s'.
Proof.
  induction srcPaths as [|src rest IH]; intros s.
  - exists s. split; [reflexivity | apply same_globals_refl].
  - cbn [copy_each]. rewrite bind_gets.
    destruct (when_returns (flagDebug s)
                (fmt_Print ("Copying " +:+ src +:+ " to "
                   +:+ filepath_Join subFolderPath (Go.Base src))) s) as (s1 & E1 & G1).
    { eexists. split; [reflexivity | repeat split]. }
    rewrite (bind_returns _ _ _ _ _ E1).
    destruct (copyFileContents_returns src (filepath_Join subFolderPath (Go.Base src)) s1)
      as (r & s2 & E2 & G2).
    rewrite (bind_returns _ _ _ _ _ E2).
    destruct (IH (match r with
                  | Some e => set_output (output s2 ++ [Logged ("Failed to copy " +:+ src +:+ " to " +:+ filepath_Join subFolderPath (Go.Base src) +:+ ", continuing anyway - " +:+ Error e)]) s2
                  | None => s2 end)) as (s3 & E3 & G3).
    exists s3. split.
    + destruct r; exact E3.
    + eapply same_globals_trans; [exact G1|].
      eapply same_globals_trans; [exact G2|].
      destruct r; [|exact G3].
      eapply same_globals_trans; [apply same_globals_output | exact G3].
Qed.

Lemma copyFilesToGroup_returns srcPaths destPath idx s :
  exists s', copyFilesToGroup srcPaths destPath idx s = (Return None, s')
             /\ same_globals s s'.
Proof.
  unfold copyFilesToGroup, fmt_Print. rewrite bind_sys, bind_emit.
  match goal with |- context [copy_each ?p ?l] =>
    match goal with |- context [bind (copy_each p l) _ ?s0] =>
      destruct (copy_each_returns p l s0) as (s' & E & G)
    end
  end.
  rewrite (bind_returns _ _ _ _ _ E).
  exists s'. split; [reflexivity|].
  eapply same_globals_trans; [|exact G]. repeat split.
Qed.

Lemma copy_group_returns files destPath idx s :
  exists s', copy_group files destPath idx s = (Return tt, s') /\ same_globals s s'.
Proof.
  unfold copy_group.
  destruct (copyFilesToGroup_returns files destPath idx s) as (s' & E & G).
  rewrite (bind_returns _ _ _ _ _ E). exists s'. split; [reflexivity | exact G].
Qed.

End Frames.

(** ** The grouping loop and its plan *)

Section Grouping.
Context {W H : Type} {R : Runtime W H}.

Lemma plan_exec_short destPath g max truncated (b : list string) s :
  (length b <= 128)%nat ->
  plan_exec destPath g max truncated (chunks 128 b) s
  = bind (when truncated (max_notice max))
         (fun _ => left_overs destPath (mkLocals g (Z.of_nat (length b)) b)) s.
Proof.
  intros Hb. destruct b as [|x b].
  - rewrite chunks_nil. cbn [plan_exec]. unfold left_overs. simpl.
    destruct truncated; reflexivity.
  - rewrite chunks_short by (lia || done). reflexivity.
Qed.

Lemma range_loop_plan destPath l : forall i v s,
  fileIdx v = Z.of_nat (length (files v)) ->
  (length (files v) <= 128)%nat ->
  bind (range_loop destPath i l v) (left_overs destPath) s
  = plan_exec destPath (groupIdx v) (flagMax s)
      (length (take (Z.to_nat (flagMax s - i)) l) <? length l)%nat
      (chunks 128 (files v ++ take (Z.to_nat (flagMax s - i)) l)) s.
Proof.
  induction l as [|filePath rest IH]; intros i v s Hidx Hlen.
  - rewrite take_nil, app_nil_r. cbn [range_loop].
    rewrite plan_exec_short by done. rewrite bind_ret_l. simpl.
    destruct v as [g fi fs]; simpl in *. subst fi. reflexivity.
  - cbn [range_loop]. rewrite bind_assoc, bind_gets.
    destruct (Z.geb_spec i (flagMax s)) as [Hge|Hlt].
    + replace (Z.to_nat (flagMax s - i)) with 0%nat by lia.
      rewrite take_0, app_nil_r. rewrite plan_exec_short by done.
      simpl. destruct v as [g fi fs]; simpl in *. subst fi. reflexivity.
    + replace (Z.to_nat (flagMax s - i)) with (S (Z.to_nat (flagMax s - (i + 1)))) by lia.
      cbn [take length].
      change (S (length (take (Z.to_nat (flagMax s - (i + 1))) rest)) <? S (length rest))%nat
        with (length (take (Z.to_nat (flagMax s - (i + 1))) rest) <? length rest)%nat.
      rewrite bind_assoc.
      destruct (Z.geb_spec (fileIdx v) 128) as [Hfull|Hroom].
      * assert (length (files v) = 128%nat) as Hfulllen by lia.
        rewrite bind_assoc.
        destruct (copy_group_returns (files v) destPath (groupIdx v) s) as (s1 & E1 & G1).
        rewrite (bind_returns _ _ _ _ _ E1). rewrite bind_ret_l.
        cbn [groupIdx fileIdx files app].
        rewrite IH by (simpl; lia).
        cbn [groupIdx fileIdx files].
        assert (flagMax s1 = flagMax s) as -> by apply G1.
        rewrite (chunks_full 128 (files v)) by (assumption || lia).
        change ([filePath] ++ ?t) with (filePath :: t).
        rewrite (chunks_cons 128 (filePath :: _)) by (lia || done).
        cbn [plan_exec]. rewrite (bind_returns _ _ _ _ _ E1). reflexivity.
      * rewrite bind_ret_l. rewrite IH.
        -- cbn [groupIdx fileIdx files]. rewrite <- app_assoc. reflexivity.
        -- cbn [fileIdx files]. rewrite length_app. simpl. lia.
        -- cbn [files]. rewrite length_app. simpl. lia.
Qed.

(** The grouping phase is the plan on the matches below the cap, cut into
    batches of 128. *)
Lemma grouping_plan destPath s :
  grouping destPath s
  = plan_exec destPath 1 (flagMax s)
      (length (take (Z.to_nat (flagMax s)) (matchingPaths s)) <? length (matchingPaths s))%nat
      (chunks 128 (take (Z.to_nat (flagMax s)) (matchingPaths s))) s.
Proof.
  unfold grouping. rewrite bind_gets.
  rewrite range_loop_plan by (simpl; lia).
  rewrite Z.sub_0_r. reflexivity.
Qed.

(** The loop never looks beyond the cap: on a list of which [below] is
    under the cap and [beyond] is not, it runs on [below] and, when there
    is something beyond, gives the notice and stops with the locals as
    they are. *)
Lemma range_loop_stops destPath (below beyond : list string) :
  forall i v (s : state W),
  Z.of_nat (length below) = flagMax s - i ->
  range_loop destPath i (below ++ beyond) v s
  = bind (range_loop destPath i below v)
         (fun v' => bind (when (bool_decide (beyond <> [])) (max_notice (flagMax s)))
                         (fun _ => ret v')) s.
Proof.
  induction below as [|x below IH]; intros i v s Hlen.
  - cbn [app range_loop]. rewrite bind_ret_l.
    destruct beyond as [|y beyond]; [reflexivity|].
    cbn [range_loop]. rewrite bind_gets.
    destruct (Z.geb_spec i (flagMax s)); [reflexivity | simpl in Hlen; lia].
  - cbn [app range_loop]. rewrite bind_assoc, !bind_gets.
    destruct (Z.geb_spec i (flagMax s)); [simpl in Hlen; lia|].
    rewrite bind_assoc.
    destruct (Z.geb_spec (fileIdx v) 128).
    + rewrite !bind_assoc.
      destruct (copy_group_returns (files v) destPath (groupIdx v) s)
        as (s1 & E1 & G1).
      rewrite !(bind_returns _ _ _ _ _ E1), !bind_ret_l.
      rewrite IH by (replace (flagMax s1) with (flagMax s) by (symmetry; apply G1);
                     simpl in Hlen; lia).
      replace (flagMax s1) with (flagMax s) by (symmetry; apply G1). reflexivity.
    + rewrite !bind_ret_l. apply IH. simpl in Hlen. lia.
Qed.

End Grouping.

(** ** The calls made by the copy functions *)

Section TraceFacts.
Context {H : Type}.
Implicit Types tr : list (call H).

Lemma opened_app tr1 tr2 : opened (tr1 ++ tr2) = opened tr1 ++ opened tr2.
Proof.
  induction tr1 as [|c tr1 IH]; [done|].
  destruct c; simpl; rewrite ?IH; reflexivity.
Qed.

Lemma made_dirs_app tr1 tr2 : made_dirs (tr1 ++ tr2) = made_dirs tr1 ++ made_dirs tr2.
Proof.
  induction tr1 as [|c tr1 IH]; [done|].
  destruct c; simpl; rewrite ?IH; reflexivity.
Qed.

Lemma made_dirs_no_mkdir tr : no_mkdir tr -> made_dirs tr = [].
Proof.
  induction 1 as [|c tr Hc _ IH]; [done|].
  destruct c; simpl in *; try done.
Qed.

Lemma opened_only_mkdir tr : only_mkdir tr -> opened tr = [].
Proof.
  induction 1 as [|c tr Hc _ IH]; [done|].
  destruct c; simpl in *; try done.
Qed.

Lemma leading_opens_app tr1 tr2 :
  no_mkdir tr1 -> leading_opens (tr1 ++ tr2) = opened tr1 ++ leading_opens tr2.
Proof.
  induction 1 as [|c tr Hc _ IH]; [done|].
  destruct c; simpl in *; try done. now rewrite IH.
Qed.

Lemma batches_of_app tr1 tr2 :
  no_mkdir tr1 -> batches_of (tr1 ++ tr2) = batches_of tr2.
Proof.
  induction 1 as [|c tr Hc _ IH]; [done|].
  destruct c; simpl in *; done.
Qed.

Lemma no_mkdir_app tr1 tr2 : no_mkdir tr1 -> no_mkdir tr2 -> no_mkdir (tr1 ++ tr2).
Proof. apply Forall_app_2. Qed.

End TraceFacts.

Section Traced.
Context {W H : Type} (R : Runtime W H).
Local Abbreviation TW := (W * list (call H))%type.
Implicit Types s : state TW.

Lemma bind_sys_recording {A B} (c : call H) (op : W -> A * W) (k : A -> M TW B) s :
  bind (sys (recording c op)) k s
  = k (fst (op (fst (world s))))
      (set_world (snd (op (fst (world s))), trace s ++ [c]) s).
Proof.
  rewrite bind_sys. unfold recording, trace.
  destruct (op (fst (world s))). reflexivity.
Qed.

Lemma copyFileContents_calls src dst s :
  exists r s' tr,
    copyFileContents (R := traced R) src dst s = (Return r, s') /\ copies [src] s s' tr.
Proof.
  unfold copyFileContents, copies. rewrite bind_gets.
  destruct (flagDryRun s) eqn:Hdry.
  - eexists _, _, []. split; [reflexivity|].
    rewrite app_nil_r. repeat split; constructor.
  - cbn [os_Open os_Create io_Copy file_Sync file_Close traced].
    rewrite bind_sys_recording.
    destruct (fst (os_Open src (fst (world s)))) as [in_|e].
    + rewrite bind_sys_recording. cbn [world set_world fst snd].
      destruct (fst (os_Create dst _)) as [out|e].
      * rewrite bind_sys_recording. cbn [world set_world fst snd].
        destruct (fst (io_Copy out in_ _)) as [e|].
        -- rewrite !bind_sys_recording. cbn [world set_world fst snd trace].
           eexists _, _, [_; _; _; _; _]. split; [reflexivity|].
           cbn [trace world snd]. rewrite <- !app_assoc.
           repeat split; try done. repeat constructor.
        -- rewrite !bind_sys_recording. cbn [world set_world fst snd trace].
           eexists _, _, [_; _; _; _; _; _]. split; [reflexivity|].
           cbn [trace world snd]. rewrite <- !app_assoc.
           repeat split; try done. repeat constructor.
      * rewrite bind_sys_recording. cbn [world set_world fst snd trace].
        eexists _, _, [_; _; _]. split; [reflexivity|].
        cbn [trace world snd]. rewrite <- !app_assoc.
        repeat split; try done. repeat constructor.
    + eexists _, _, [_]. split; [reflexivity|].
      repeat split; try done. repeat constructor.
Qed.

End Traced.

Section TracedBatches.
Context {W H : Type} (R : Runtime W H).
Implicit Types s : state (W * list (call H)).

Lemma copies_dry paths s s' tr : copies paths s s' tr -> flagDryRun s' = flagDryRun s.
Proof. intros (_ & _ & _ & _ & G). apply G. Qed.

Lemma copy_each_calls subFolderPath srcPaths : forall s,
  exists s' tr,
    copy_each (R := traced R) subFolderPath srcPaths s = (Return tt, s')
    /\ copies srcPaths s s' tr.
Proof.
  induction srcPaths as [|src rest IH]; intros s.
  - exists s, []. split; [reflexivity|]. unfold copies.
    rewrite app_nil_r. repeat split; try constructor. now destruct (flagDryRun s).
  - cbn [copy_each]. rewrite bind_gets.
    set (dest := filepath_Join subFolderPath (Go.Base src)).
    set (s1 := if flagDebug s
               then set_output (output s ++ [Stdout ("Copying " +:+ src +:+ " to " +:+ dest)]) s
               else s).
    assert (when (flagDebug s) (fmt_Print ("Copying " +:+ src +:+ " to " +:+ dest)) s
            = (Return tt, s1)) as E1 by (subst s1; now destruct (flagDebug s)).
    assert (same_globals s s1 /\ trace s1 = trace s) as [G1 T1]
      by (subst s1; destruct (flagDebug s); repeat split).
    rewrite (bind_returns _ _ _ _ _ E1).
    destruct (copyFileContents_calls R src dest s1) as (r & s2 & tr2 & E2 & C2).
    rewrite (bind_returns _ _ _ _ _ E2).
    set (s3 := match r with
               | Some e => set_output (output s2 ++ [Logged ("Failed to copy " +:+ src
                             +:+ " to " +:+ dest +:+ ", continuing anyway - " +:+ Error e)]) s2
               | None => s2
               end).
    assert (same_globals s2 s3 /\ trace s3 = trace s2) as [G3 T3]
      by (subst s3; destruct r; repeat split).
    destruct (IH s3) as (s4 & tr4 & E4 & C4).
    exists s4, (tr2 ++ tr4). split.
    + subst s3. destruct r; exact E4.
    + destruct C2 as (Ta & Na & Oa & Da & Ga), C4 as (Tb & Nb & Ob & Db & Gb).
      assert (flagDryRun s1 = flagDryRun s) as D1 by apply G1.
      assert (flagDryRun s3 = flagDryRun s) as D3.
      { transitivity (flagDryRun s2); [apply G3|].
        transitivity (flagDryRun s1); [apply Ga | exact D1]. }
      rewrite D1 in Oa, Da. rewrite D3 in Ob, Db.
      unfold copies. split; [|split; [|split; [|split]]].
      * rewrite Tb, T3, Ta, T1. now rewrite app_assoc.
      * now apply no_mkdir_app.
      * rewrite opened_app, Oa, Ob. now destruct (flagDryRun s).
      * intros Hd. now rewrite Da, Db.
      * eapply same_globals_trans; [exact G1|].
        eapply same_globals_trans; [exact Ga|].
        eapply same_globals_trans; [exact G3 | exact Gb].
Qed.

Lemma copy_group_calls files destPath idx s :
  exists s' tr,
    copy_group (R := traced R) files destPath idx s = (Return tt, s')
    /\ trace s' = trace s ++ CMkdirAll (group_folder (R := R) destPath idx) 511 :: tr
    /\ no_mkdir tr
    /\ opened tr = (if flagDryRun s then [] else files)
    /\ (flagDryRun s = true -> tr = [])
    /\ same_globals s s'.
Proof.
  unfold copy_group, copyFilesToGroup, fmt_Print.
  rewrite bind_assoc. cbn [os_MkdirAll traced].
  rewrite bind_sys_recording, bind_assoc, bind_emit, bind_assoc.
  match goal with |- context [bind (copy_each ?p ?l) _ ?s0] =>
    destruct (copy_each_calls p l s0) as (s' & tr & E & (T & N & O & D & G))
  end.
  change (group_folder (R := traced R) destPath idx)
    with (group_folder (R := R) destPath idx) in *.
  rewrite (bind_returns _ _ _ _ _ E).
  exists s', tr. split; [reflexivity|].
  split; [|split; [exact N | split; [exact O | split; [exact D|]]]].
  - rewrite T. cbn [trace world set_world set_output snd]. now rewrite <- app_assoc.
  - eapply same_globals_trans; [|exact G]. repeat split.
Qed.

Lemma group_folders_S destPath g n :
  group_folders (R := R) destPath g (S n)
  = group_folder (R := R) destPath g :: group_folders (R := R) destPath (g + 1) n.
Proof.
  unfold group_folders. cbn [seq map]. rewrite Z.add_0_r. f_equal.
  rewrite <- seq_shift, map_map. apply map_ext. intros k. f_equal. lia.
Qed.

Lemma plan_exec_calls destPath max truncated batches : forall g s,
  exists s' tr,
    plan_exec (R := traced R) destPath g max truncated batches s = (Return tt, s')
    /\ trace s' = trace s ++ tr
    /\ leading_opens tr = []
    /\ made_dirs tr = group_folders (R := R) destPath g (length batches)
    /\ opened tr = (if flagDryRun s then [] else concat batches)
    /\ (flagDryRun s = false -> batches_of tr = batches)
    /\ (flagDryRun s = true -> only_mkdir tr)
    /\ same_globals s s'.
Proof.
  induction batches as [|b rest IH]; intros g s.
  - cbn [plan_exec].
    exists (if truncated then set_output (output s ++ [Stdout ("We reached the max amount of samples to copy: " +:+ pretty max)]) s else s), [].
    split; [now destruct truncated|].
    split; [rewrite app_nil_r; now destruct truncated|].
    repeat split; try (now destruct (flagDryRun s)); try constructor;
      destruct truncated; reflexivity.
  - cbn [plan_exec]. destruct rest as [|b' rest'].
    + set (s1 := if truncated then set_output (output s ++ [Stdout ("We reached the max amount of samples to copy: " +:+ pretty max)]) s else s).
      assert (when truncated (max_notice max) s = (Return tt, s1)) as E1
        by (subst s1; now destruct truncated).
      assert (same_globals s s1 /\ trace s1 = trace s) as [G1 T1]
        by (subst s1; destruct truncated; repeat split).
      rewrite (bind_returns _ _ _ _ _ E1).
      destruct (copy_group_calls b destPath g s1) as (s' & tr & E & T & N & O & D & G).
      assert (flagDryRun s1 = flagDryRun s) as D1 by apply G1.
      rewrite D1 in O, D.
      exists s', (CMkdirAll (group_folder (R := R) destPath g) 511 :: tr).
      split; [exact E|]. split; [now rewrite T, T1|].
      split; [reflexivity|].
      split; [cbn [made_dirs length]; rewrite made_dirs_no_mkdir by done;
              rewrite group_folders_S; reflexivity|].
      split; [cbn [opened concat]; rewrite O, app_nil_r; reflexivity|].
      split; [intros Hd; cbn [batches_of]; rewrite Hd in O;
              rewrite <- (app_nil_r tr), leading_opens_app, batches_of_app by done;
              simpl; now rewrite app_nil_r, O|].
      split; [intros Hd; rewrite (D Hd); repeat constructor|].
      eapply same_globals_trans; [exact G1 | exact G].
    + destruct (copy_group_calls b destPath g s) as (s1 & tr & E & T & N & O & D & G).
      rewrite (bind_returns _ _ _ _ _ E).
      destruct (IH (g + 1) s1) as (s' & tr' & E' & T' & L' & M' & O' & B' & D' & G').
      assert (flagDryRun s1 = flagDryRun s) as D1 by apply G.
      rewrite D1 in O', B', D'.
      exists s', (CMkdirAll (group_folder (R := R) destPath g) 511 :: tr ++ tr').
      split; [exact E'|].
      split; [rewrite T', T, <- app_assoc; reflexivity|].
      split; [reflexivity|].
      split; [cbn [made_dirs]; rewrite made_dirs_app, made_dirs_no_mkdir by done;
              rewrite M'; cbn [length]; rewrite (group_folders_S destPath g); reflexivity|].
      split; [cbn [opened]; rewrite opened_app, O, O';
              now destruct (flagDryRun s)|].
      split; [intros Hd; cbn [batches_of]; rewrite Hd in O;
              rewrite leading_opens_app, batches_of_app by done;
              now rewrite L', app_nil_r, O, (B' Hd)|].
      split; [intros Hd; rewrite (D Hd); constructor; [reflexivity | exact (D' Hd)]|].
      eapply same_globals_trans; [exact G | exact G'].
Qed.

End TracedBatches.

(** ** Discovery *)

Lemma entry_ind' (P : entry -> Prop) :
  (forall n e, P (NoStat n e)) ->
  (forall n, P (File n)) ->
  (forall n listing entries, Forall P entries -> P (Dir n listing entries)) ->
  forall t, P t.
Proof.
  intros HN HF HD. fix IH 1. intros [n e|n|n listing entries].
  - apply HN.
  - apply HF.
  - apply HD. induction entries as [|c r IHr]; constructor; [apply IH | exact IHr].
Qed.

Section Discovery.
Context {W H : Type} {R : Runtime W H}.
Implicit Types s : state W.

Lemma allowed_ext_spec ext :
  bool_decide (ext <> ".wav"%string) && bool_decide (ext <> ".aiff"%string)
    && bool_decide (ext <> ".aif"%string)
  = negb (allowed_ext ext).
Proof.
  unfold allowed_ext.
  repeat case_bool_decide; simpl; try reflexivity; exfalso;
    repeat match goal with
           | H : _ ∈ _ :: _ |- _ => apply elem_of_cons in H; destruct H
           | H : _ ∈ [] |- _ => apply elem_of_nil in H
           | H : ¬ _ ∈ _ |- _ => apply H; set_solver
           end; try done; try congruence.
Qed.

(** [visit] on a directory does nothing, whatever error comes with it. *)
Lemma visit_dir path n err s :
  visit path (Some {| fi_Name := n; fi_IsDir := true |}) err s = (Return None, s).
Proof. reflexivity. Qed.

(** [visit] on a file never fails: it keeps the path or drops it. *)
Lemma visit_file path n err s :
  visit path (Some {| fi_Name := n; fi_IsDir := false |}) err s
  = (Return None,
     if passes_filters (flagKeyword s) path then note_match s path else s).
Proof.
  unfold visit, passes_filters. cbn [fi_IsDir].
  rewrite allowed_ext_spec.
  destruct (allowed_ext _); cbn [negb andb]; [|reflexivity].
  rewrite bind_gets.
  destruct (Go.Contains _ _); [|reflexivity].
  rewrite bind_assoc, bind_gets.
  unfold note_match. destruct (flagDebug s); reflexivity.
Qed.

(** [visit] on an entry without [FileInfo] dereferences nil. *)
Lemma visit_nil path err s : exists msg, visit path None err s = (Panic msg, s).
Proof. eexists. reflexivity. Qed.

Lemma note_matches_frame paths : forall s,
  matchingPaths (note_matches s paths) = matchingPaths s ++ paths
  /\ flagKeyword (note_matches s paths) = flagKeyword s
  /\ world (note_matches s paths) = world s.
Proof.
  induction paths as [|p r IH]; intros s.
  - simpl. now rewrite app_nil_r.
  - cbn [note_matches foldl]. destruct (IH (note_match s p)) as (E1 & E2 & E3).
    unfold note_matches in *. rewrite E1, E2, E3.
    unfold note_match. destruct (flagDebug s); simpl; rewrite <- app_assoc; done.
Qed.

Lemma note_matches_app s l1 l2 :
  note_matches s (l1 ++ l2) = note_matches (note_matches s l1) l2.
Proof. apply foldl_app. Qed.

(** On a readable tree the walk ends without error, having kept exactly
    the files that pass the filters, in walk order. *)
Lemma walk_readable t : forall path s,
  readable t = true ->
  walk visit path t s
  = (Return None,
     note_matches s (filter (fun p => passes_filters (flagKeyword s) p = true)
                            (tree_files path t))).
Proof.
  induction t as [n e|n|n listing entries IH] using entry_ind'; intros path s Hr.
  - discriminate.
  - cbn [walk tree_files]. rewrite visit_file.
    rewrite filter_cons, filter_nil.
    destruct (passes_filters (flagKeyword s) path) eqn:E.
    + rewrite decide_True by done. reflexivity.
    + rewrite decide_False by done. reflexivity.
  - cbn [walk tree_files]. cbn [readable] in Hr.
    apply andb_true_iff in Hr as [Hl He].
    destruct listing as [e|]; [discriminate|].
    rewrite (bind_returns _ _ _ _ _ (visit_dir path n None s)). cbn [not_nil orb].
    clear Hl. revert s. induction entries as [|c r IHr]; intros s.
    + reflexivity.
    + cbn [walk_names flat_map]. cbn [forallb] in He.
      apply andb_true_iff in He as [Hc Hrest].
      apply Forall_cons in IH as [IHc IHrest].
      rewrite (bind_returns _ _ _ _ _ (IHc _ s Hc)).
      rewrite (IHr IHrest Hrest).
      rewrite filter_app, note_matches_app.
      destruct (note_matches_frame
                  (filter (fun p => passes_filters (flagKeyword s) p = true)
                     (tree_files (filepath_Join path (entry_name c)) c)) s)
        as (_ & -> & _).
      reflexivity.
Qed.

End Discovery.

(** ** Strings *)

Lemma prefix_app (p : string) : forall s : string,
  String.prefix p s = true <-> exists b, s = p +:+ b.
Proof.
  induction p as [|a p IH]; intros s.
  - split; [intros _; now exists s | intros _; now destruct s].
  - destruct s as [|c s]; simpl.
    + split; [done | intros [b Hb]; discriminate].
    + destruct (Ascii.ascii_dec a c) as [->|Hne].
      * rewrite IH. split; intros [b Hb]; exists b; [now rewrite Hb | now injection Hb].
      * split; [done | intros [b Hb]; injection Hb; intros; congruence].
Qed.

(** [strings.Contains] holds exactly of the contiguous substrings. *)
Lemma Contains_spec (sub : string) : forall s : string,
  Go.Contains s sub = true <-> exists a b, s = a +:+ sub +:+ b.
Proof.
  induction s as [|c s IH]; cbn [Go.Contains]; rewrite orb_true_iff, prefix_app.
  - split.
    + intros [[b Hb]|?]; [|done]. exists ""%string, b. exact Hb.
    + intros (a & b & Hab). left. destruct a; [now exists b | discriminate].
  - rewrite IH. split.
    + intros [[b Hb]|(a & b & Hab)].
      * exists ""%string, b. exact Hb.
      * exists (String c a), b. simpl. now rewrite Hab.
    + intros (a & b & Hab). destruct a as [|c' a].
      * left. now exists b.
      * right. exists a, b. simpl in Hab. now injection Hab.
Qed.

Lemma allowed_ext_elem ext :
  allowed_ext ext = true <-> ext ∈ [".wav"; ".aiff"; ".aif"]%string.
Proof. unfold allowed_ext. apply bool_decide_eq_true. Qed.

(** ** The calls of the grouping phase *)

Section GroupingCalls.
Context {W H : Type} (R : Runtime W H).
Implicit Types s : state (W * list (call H)).

Lemma grouping_calls destPath s :
  exists s' tr,
    grouping (R := traced R) destPath s = (Return tt, s')
    /\ trace s' = trace s ++ tr
    /\ made_dirs tr = group_folders (R := R) destPath 1 (length (chunks 128 (kept s)))
    /\ opened tr = (if flagDryRun s then [] else kept s)
    /\ (flagDryRun s = false -> batches_of tr = chunks 128 (kept s))
    /\ (flagDryRun s = true -> only_mkdir tr)
    /\ same_globals s s'.
Proof.
  rewrite grouping_plan. fold (kept s).
  destruct (plan_exec_calls R destPath (flagMax s)
              (length (kept s) <? length (matchingPaths s))%nat
              (chunks 128 (kept s)) 1 s)
    as (s' & tr & E & T & _ & D & O & B & M & G).
  exists s', tr. rewrite concat_chunks in O by lia.
  repeat split; try assumption; apply G.
Qed.

End GroupingCalls.

(** ** What [visit] can answer *)

Section VisitOutcome.
Context {W H : Type} {R : Runtime W H}.
Implicit Types s : state W.

Lemma visit_quiet path fi err s : quiet (visit path fi err s).
Proof.
  destruct fi as [[n [|]]|].
  - left. eexists. apply visit_dir.
  - left. eexists. apply visit_file.
  - right. eexists _, _. reflexivity.
Qed.

Lemma walk_visit_quiet t : forall path s, quiet (walk visit path t s).
Proof.
  induction t as [n e|n|n listing entries IH] using entry_ind'; intros path s.
  - apply visit_quiet.
  - apply visit_quiet.
  - cbn [walk]. rewrite (bind_returns _ _ _ _ _ (visit_dir path n listing s)).
    destruct listing as [e|]; cbn [not_nil orb].
    + left. eexists. reflexivity.
    + revert s. induction entries as [|c r IHr]; intros s.
      * left. eexists. reflexivity.
      * apply Forall_cons in IH as [IHc IHrest]. cbn [walk_names].
        destruct (IHc (filepath_Join path (entry_name c)) s)
          as [[s' E]|(msg & s' & E)].
        -- rewrite (bind_returns _ _ _ _ _ E). apply (IHr IHrest).
        -- right. exists msg, s'. unfold bind. now rewrite E.
Qed.

(** The only errors of [findMatchingFiles] are the two it makes itself. *)
Lemma findMatchingFiles_error src keyword s found e s' :
  findMatchingFiles src keyword s = (Return (found, Some e), s') ->
  src = ""%string \/ exists e', filepath_Abs src (world s) = inr e'.
Proof.
  unfold findMatchingFiles. case_bool_decide as Hsrc; [now left|].
  unfold ask at 1. rewrite bind_gets.
  destruct (filepath_Abs src (world s)) as [fullPath|e'] eqn:Habs; [|right; now exists e'].
  unfold Walk, ask. rewrite bind_assoc, bind_gets, bind_assoc.
  destruct (walk_visit_quiet (os_tree fullPath (world s)) fullPath s)
    as [[s1 E]|(msg & s1 & E)].
  - rewrite (bind_returns _ _ _ _ _ E).
    rewrite !bool_decide_eq_false_2 by done. cbn [orb].
    rewrite bind_ret_l, bind_gets. discriminate.
  - unfold bind. rewrite E. discriminate.
Qed.

End VisitOutcome.

Section WalkSound.
Context {W H : Type} {R : Runtime W H}.
Implicit Types s : state W.

Lemma found_soundly_refl s : found_soundly s s.
Proof. exists []. rewrite app_nil_r. repeat split. constructor. Qed.

Lemma found_soundly_trans s1 s2 s3 :
  found_soundly s1 s2 -> found_soundly s2 s3 -> found_soundly s1 s3.
Proof.
  intros (a1 & E1 & F1 & K1) (a2 & E2 & F2 & K2).
  exists (a1 ++ a2). rewrite E2, E1, <- app_assoc. split; [reflexivity|].
  split; [|congruence].
  apply Forall_app. split; [exact F1|]. now rewrite K1 in F2.
Qed.

Lemma visit_sound path fi err s : found_soundly s (snd (visit path fi err s)).
Proof.
  destruct fi as [[n [|]]|].
  - rewrite visit_dir. apply found_soundly_refl.
  - rewrite visit_file. cbn [snd].
    destruct (passes_filters (flagKeyword s) path) eqn:E; [|apply found_soundly_refl].
    exists [path]. unfold note_match.
    destruct (flagDebug s); repeat split; now repeat constructor.
  - apply found_soundly_refl.
Qed.

(** Whatever the tree and however the walk ends, what it has added to
    [matchingPaths] passes both tests. *)
Lemma walk_sound t : forall path s, found_soundly s (snd (walk visit path t s)).
Proof.
  induction t as [n e|n|n listing entries IH] using entry_ind'; intros path s.
  - apply visit_sound.
  - apply visit_sound.
  - cbn [walk]. rewrite (bind_returns _ _ _ _ _ (visit_dir path n listing s)).
    destruct listing as [e|]; cbn [not_nil orb]; [apply found_soundly_refl|].
    revert s. induction entries as [|c r IHr]; intros s; [apply found_soundly_refl|].
    apply Forall_cons in IH as [IHc IHrest]. cbn [walk_names].
    pose proof (IHc (filepath_Join path (entry_name c)) s) as Hc.
    destruct (walk_visit_quiet c (filepath_Join path (entry_name c)) s)
      as [[s' E]|(msg & s' & E)]; rewrite E in Hc; cbn [snd] in Hc.
    + rewrite (bind_returns _ _ _ _ _ E).
      eapply found_soundly_trans; [exact Hc | apply (IHr IHrest)].
    + unfold bind. rewrite E. exact Hc.
Qed.

End WalkSound.

Section Reported.
Context {W H : Type} {R : Runtime W H}.
Implicit Types s : state W.

(** The error of [filepath.Abs] is the one discovery error that is
    reported: the walk is not started and the list is nil. *)
Lemma abs_error_is_reported src keyword s e :
  src <> ""%string ->
  filepath_Abs src (world s) = inr e ->
  findMatchingFiles src keyword s
  = (Return ([], Some (Err ("couldn't get the absolute path of the source - "
                              +:+ Error e))), s).
Proof.
  intros Hsrc Habs. unfold findMatchingFiles.
  rewrite bool_decide_eq_false_2 by done.
  unfold ask. now rewrite bind_gets, Habs.
Qed.

(** What [os.MkdirAll] answers is not looked at: the batch is copied from
    the state the call leaves, error or not. *)
Lemma copyFilesToGroup_drops_mkdir_result srcPaths destPath idx s :
  copyFilesToGroup srcPaths destPath idx s
  = bind (copy_each (group_folder destPath idx) srcPaths) (fun _ => ret None)
      (set_output
         (output s ++ [Stdout ("Copying " +:+ pretty (Z.of_nat (length srcPaths))
                               +:+ " files to " +:+ group_folder destPath idx)])
         (set_world (snd (os_MkdirAll (group_folder destPath idx) 511 (world s))) s)).
Proof. unfold copyFilesToGroup, fmt_Print. now rewrite bind_sys, bind_emit. Qed.

End Reported.

(** The recording runtime answers as the runtime it wraps and leaves the
    world as that one does. *)
Lemma traced_faithful {W H} (R : Runtime W H) (w : W) (tr : list (call H))
      (p : string) (perm : Z) (f g : H) :
  (fst (os_MkdirAll (Runtime := traced R) p perm (w, tr)) = fst (os_MkdirAll p perm w)
   /\ fst (snd (os_MkdirAll (Runtime := traced R) p perm (w, tr))) = snd (os_MkdirAll p perm w))
  /\ (fst (os_Open (Runtime := traced R) p (w, tr)) = fst (os_Open p w)
      /\ fst (snd (os_Open (Runtime := traced R) p (w, tr))) = snd (os_Open p w))
  /\ (fst (os_Create (Runtime := traced R) p (w, tr)) = fst (os_Create p w)
      /\ fst (snd (os_Create (Runtime := traced R) p (w, tr))) = snd (os_Create p w))
  /\ (fst (io_Copy (Runtime := traced R) f g (w, tr)) = fst (io_Copy f g w)
      /\ fst (snd (io_Copy (Runtime := traced R) f g (w, tr))) = snd (io_Copy f g w))
  /\ (fst (file_Sync (Runtime := traced R) f (w, tr)) = fst (file_Sync f w)
      /\ fst (snd (file_Sync (Runtime := traced R) f (w, tr))) = snd (file_Sync f w))
  /\ (fst (file_Close (Runtime := traced R) f (w, tr)) = fst (file_Close f w)
      /\ fst (snd (file_Close (Runtime := traced R) f (w, tr))) = snd (file_Close f w)).
Proof.
  cbn [traced os_MkdirAll os_Open os_Create io_Copy file_Sync file_Close].
  unfold recording. cbn [fst snd].
  destruct (os_MkdirAll p perm w), (os_Open p w), (os_Create p w), (io_Copy f g w),
    (file_Sync f w), (file_Close f w).
  repeat split.
Qed.

(** * The properties of the specification *)

(** Where the discovery is sound and where it is complete.  Whatever the
    source tree holds, every path the discovery returns is the path of a
    file whose lower-cased name has one of the extensions [.wav], [.aiff],
    [.aif] and contains the lower-cased keyword as a contiguous substring.
    On a source tree that can be read, the discovery returns, without error
    and without touching the world, exactly the files below the root that
    pass both tests, in walk order: none is left out. *)
Theorem discovery_sound_complete {W H} {R : Runtime W H}
        (src keyword unused fullPath : string) (s : state W) :
  src <> ""%string ->
  filepath_Abs src (world s) = inl fullPath ->
  flagKeyword s = strings_ToLower keyword ->
  matchingPaths s = [] ->
  (forall found err s',
      findMatchingFiles src unused s = (Return (found, err), s') ->
      forall p, p ∈ found ->
        Go.Ext (strings_ToLower (Go.Base p)) ∈ [".wav"; ".aiff"; ".aif"]%string
        /\ exists a b, strings_ToLower (Go.Base p)
                       = (a +:+ strings_ToLower keyword +:+ b)%string)
  /\ (readable (os_tree fullPath (world s)) = true ->
      exists found s',
        findMatchingFiles src unused s = (Return (found, None), s')
        /\ world s' = world s
        /\ found = filter (fun p => is_match keyword p = true)
                          (tree_files fullPath (os_tree fullPath (world s)))
        /\ (forall p, p ∈ tree_files fullPath (os_tree fullPath (world s)) ->
              Go.Ext (strings_ToLower (Go.Base p)) ∈ [".wav"; ".aiff"; ".aif"]%string ->
              (exists a b, strings_ToLower (Go.Base p)
                           = (a +:+ strings_ToLower keyword +:+ b)%string) ->
              p ∈ found)).
Proof.
  intros Hsrc Habs Hkw Hempty.
  set (t := os_tree fullPath (world s)).
  assert (forall p, is_match keyword p = true <->
            Go.Ext (strings_ToLower (Go.Base p)) ∈ [".wav"; ".aiff"; ".aif"]%string
            /\ exists a b, strings_ToLower (Go.Base p)
                           = (a +:+ strings_ToLower keyword +:+ b)%string) as Hmatch.
  { intros p. unfold is_match, passes_filters.
    now rewrite andb_true_iff, allowed_ext_elem, Contains_spec. }
  assert (findMatchingFiles src unused s
          = bind (walk visit fullPath t)
              (fun err =>
                 bind (if bool_decide (err = Some SkipDir) || bool_decide (err = Some SkipAll)
                       then ret None else ret err)
                      (fun err => bind (gets matchingPaths) (fun found => ret (found, err)))) s)
    as Hunfold.
  { unfold findMatchingFiles. rewrite bool_decide_eq_false_2 by done.
    unfold ask at 1. rewrite bind_gets, Habs.
    unfold Walk, ask. now rewrite bind_assoc, bind_gets, bind_assoc. }
  split.
  - intros found err s' Hrun p Hp. apply Hmatch.
    rewrite Hunfold in Hrun.
    pose proof (walk_sound t fullPath s) as (added & Ea & Fa & _).
    destruct (walk_visit_quiet t fullPath s) as [[s1 E]|(msg & s1 & E)].
    + rewrite (bind_returns _ _ _ _ _ E) in Hrun.
      rewrite !bool_decide_eq_false_2 in Hrun by done. cbn [orb] in Hrun.
      rewrite bind_ret_l, bind_gets in Hrun. injection Hrun as <- _ _.
      rewrite E in Ea. cbn [snd] in Ea. rewrite Ea, Hempty in Hp. cbn [app] in Hp.
      rewrite Forall_forall in Fa. unfold is_match. rewrite <- Hkw. now apply Fa.
    + unfold bind in Hrun. rewrite E in Hrun. discriminate.
  - intros Hread.
    set (found := filter (fun p => is_match keyword p = true) (tree_files fullPath t)).
    exists found, (note_matches s found).
    split; [|split; [|split; [reflexivity|]]].
    + rewrite Hunfold.
      rewrite (bind_returns _ _ _ _ _ (walk_readable t fullPath s Hread)).
      rewrite Hkw.
      change (filter _ (tree_files fullPath t)) with found.
      rewrite !bool_decide_eq_false_2 by done. cbn [orb].
      rewrite bind_ret_l, bind_gets.
      destruct (note_matches_frame found s) as (-> & _ & _).
      now rewrite Hempty.
    + apply note_matches_frame.
    + intros p Hp Hext Hsub. apply list_elem_of_filter. split; [|exact Hp].
      apply Hmatch. now split.
Qed.

Lemma discovery_sound_complete_witness :
  exists found s',
    findMatchingFiles (R := Sim.runtime) "/s" "kick"
                      (Sim.start "/s" "kick" "/out" 128 false false 1000 ex_world)
    = (Return (found, None), s')
    /\ found = ["/s/KICK_perc.aiff"; "/s/kick_808.wav"]%string.
Proof.
  destruct (discovery_sound_complete (R := Sim.runtime) "/s" "Kick" "kick" "/s"
              (Sim.start "/s" "kick" "/out" 128 false false 1000 ex_world))
    as [_ Hcomplete]; try reflexivity; try done.
  destruct (Hcomplete eq_refl) as (found & s' & E & _ & F & _).
  exists found, s'. split; [exact E | exact F].
Defined.

(** C3. Global cap: with a maximum [M] between 0 and the number of matches,
    the loop runs on the first [M] matches only and, when matches are left,
    stops there with the notice, whatever the current batch holds; the whole
    grouping phase is the plan for the first [M] matches cut into batches;
    the batches hold those [M] files and no other, and in a live run the
    files whose copy is started are exactly those, in order. *)
Theorem global_cap {W H} (R : Runtime W H) (destPath : string)
        (s : state (W * list (call H))) :
  0 <= flagMax s <= Z.of_nat (length (matchingPaths s)) ->
  Z.of_nat (length (kept s)) = flagMax s
  /\ concat (chunks 128 (kept s)) = kept s
  /\ (forall v,
        range_loop (R := traced R) destPath 0 (matchingPaths s) v s
        = bind (range_loop (R := traced R) destPath 0 (kept s) v)
               (fun v' =>
                  bind (when (flagMax s <? Z.of_nat (length (matchingPaths s)))
                             (max_notice (flagMax s)))
                       (fun _ => ret v')) s)
  /\ grouping (R := traced R) destPath s
     = plan_exec (R := traced R) destPath 1 (flagMax s)
         (flagMax s <? Z.of_nat (length (matchingPaths s))) (chunks 128 (kept s)) s
  /\ exists s' tr,
       grouping (R := traced R) destPath s = (Return tt, s')
       /\ trace s' = trace s ++ tr
       /\ (flagDryRun s = false -> opened tr = kept s).
Proof.
  intros [Hlo Hhi].
  assert (length (kept s) = Z.to_nat (flagMax s)) as Hkept
    by (unfold kept; rewrite length_take; lia).
  assert ((length (kept s) <? length (matchingPaths s))%nat
          = (flagMax s <? Z.of_nat (length (matchingPaths s)))) as Htrunc.
  { rewrite Hkept.
    destruct (Nat.ltb_spec (Z.to_nat (flagMax s)) (length (matchingPaths s)));
      destruct (Z.ltb_spec (flagMax s) (Z.of_nat (length (matchingPaths s))));
      try lia; reflexivity. }
  split; [lia|]. split; [apply concat_chunks; lia|]. split; [|split].
  - intros v.
    rewrite <- (take_drop (Z.to_nat (flagMax s)) (matchingPaths s)) at 1.
    fold (kept s). rewrite (range_loop_stops (R := traced R)) by lia.
    assert (bool_decide (drop (Z.to_nat (flagMax s)) (matchingPaths s) <> [])
            = (flagMax s <? Z.of_nat (length (matchingPaths s)))) as ->; [|reflexivity].
    rewrite <- Htrunc, Hkept.
    destruct (Nat.ltb_spec (Z.to_nat (flagMax s)) (length (matchingPaths s))) as [Hlt|Hge].
    + apply bool_decide_eq_true_2. intros Hnil.
      apply (f_equal length) in Hnil. rewrite length_drop in Hnil. simpl in Hnil. lia.
    + apply bool_decide_eq_false_2. intros Hne. apply Hne.
      apply drop_ge. lia.
  - rewrite grouping_plan. fold (kept s). now rewrite Htrunc.
  - destruct (grouping_calls R destPath s) as (s' & tr & E & T & _ & O & _).
    exists s', tr. split; [exact E|]. split; [exact T|].
    intros Hlive. now rewrite Hlive in O.
Qed.

Lemma global_cap_witness :
  exists s' tr,
    grouping (R := traced Sim.runtime) "/out" (ex_found ex_three 128 false 2 (ex_world_three, []))
    = (Return tt, s')
    /\ trace s' = [] ++ tr
    /\ (false = false -> opened tr = ["/s/a.wav"; "/s/b.wav"]%string).
Proof.
  apply (global_cap Sim.runtime "/out" (ex_found ex_three 128 false 2 (ex_world_three, []))).
  simpl. lia.
Defined.

(** C4. Dry run: with the dry-run flag set, the per-file copy makes no call
    at all (it writes its log line and returns nil); copying a batch makes
    one call, the [os.MkdirAll] of the group folder; and the calls of the
    whole grouping phase are [os.MkdirAll] calls only, however long the list
    of matches is.  No file is opened, created or written. *)
Theorem dry_run_writes_nothing {W H} (R : Runtime W H) (destPath : string)
        (s : state (W * list (call H))) :
  flagDryRun s = true ->
  (forall src dst,
      copyFileContents (R := traced R) src dst s
      = (Return None,
         set_output (output s ++ [Logged ("Copying " +:+ src +:+ " to " +:+ dst)]) s))
  /\ (forall srcPaths idx,
        exists s',
          copyFilesToGroup (R := traced R) srcPaths destPath idx s = (Return None, s')
          /\ trace s' = trace s ++ [CMkdirAll (group_folder (R := R) destPath idx) 511])
  /\ exists s' tr,
       grouping (R := traced R) destPath s = (Return tt, s')
       /\ trace s' = trace s ++ tr
       /\ only_mkdir tr /\ opened tr = [].
Proof.
  intros Hdry. split; [|split].
  - intros src dst. unfold copyFileContents. rewrite bind_gets, Hdry. reflexivity.
  - intros srcPaths idx.
    destruct (copy_group_calls R srcPaths destPath idx s) as (s' & tr & E & T & _ & _ & D & _).
    rewrite (D Hdry) in T.
    destruct (copyFilesToGroup_returns (R := traced R) srcPaths destPath idx s)
      as (s'' & E' & _).
    exists s''. split; [exact E'|].
    unfold copy_group in E. rewrite (bind_returns _ _ _ _ _ E') in E.
    injection E as <-. exact T.
  - destruct (grouping_calls R destPath s) as (s' & tr & E & T & _ & O & _ & M & _).
    exists s', tr. rewrite Hdry in O. auto.
Qed.

Lemma dry_run_writes_nothing_witness :
  exists s' tr,
    grouping (R := traced Sim.runtime) "/out" (ex_found ex_three 128 true 1000 (ex_world_three, []))
    = (Return tt, s')
    /\ trace s' = [] ++ tr
    /\ only_mkdir tr /\ opened tr = [].
Proof.
  apply (dry_run_writes_nothing Sim.runtime "/out"
           (ex_found ex_three 128 true 1000 (ex_world_three, []))).
  reflexivity.
Defined.

(** C10. [copyFilesToGroup] returns nil on every input and in every state,
    whatever [os.MkdirAll] and the per-file copies answer; so the call with
    its error branch, as [main] makes it, ends in the very state
    [copyFilesToGroup] ends in: the branch that logs a batch error is never
    taken. *)
Theorem copyFilesToGroup_returns_nil {W H} {R : Runtime W H}
        (srcPaths : list string) (destPath : string) (idx : Z) (s : state W) :
  exists s',
    copyFilesToGroup srcPaths destPath idx s = (Return None, s')
    /\ copy_group srcPaths destPath idx s = (Return tt, s').
Proof.
  destruct (copyFilesToGroup_returns srcPaths destPath idx s) as (s' & E & _).
  exists s'. split; [exact E|].
  unfold copy_group. now rewrite (bind_returns _ _ _ _ _ E).
Qed.

(** C5. Failure isolation, in a live run.  Within a batch: when the copy of
    a file fails, the failure is logged and the loop goes on with the files
    that follow; whatever the copies answer, [copyFilesToGroup] returns nil
    and has started the copy of every file of the batch, once and in order.
    Across batches: the grouping phase returns, and the batches whose copy
    it starts are all the batches of the matches below the cap. *)
Theorem copy_failure_isolation {W H} (R : Runtime W H) (destPath : string) (idx : Z)
        (before after : list string) (src : string) (s : state (W * list (call H))) :
  flagDryRun s = false ->
  (forall subFolderPath s1 e s2,
      copyFileContents (R := traced R) src (filepath_Join subFolderPath (Go.Base src))
        (if flagDebug s1
         then set_output (output s1 ++ [Stdout ("Copying " +:+ src +:+ " to "
                +:+ filepath_Join subFolderPath (Go.Base src))]) s1
         else s1)
      = (Return (Some e), s2) ->
      copy_each (R := traced R) subFolderPath (src :: after) s1
      = copy_each (R := traced R) subFolderPath after
          (set_output (output s2 ++ [Logged ("Failed to copy " +:+ src +:+ " to "
             +:+ filepath_Join subFolderPath (Go.Base src)
             +:+ ", continuing anyway - " +:+ Error e)]) s2))
  /\ (exists s' tr,
        copyFilesToGroup (R := traced R) (before ++ src :: after) destPath idx s
        = (Return None, s')
        /\ trace s' = trace s ++ CMkdirAll (group_folder (R := R) destPath idx) 511 :: tr
        /\ no_mkdir tr
        /\ opened tr = before ++ src :: after)
  /\ exists s' tr,
       grouping (R := traced R) destPath s = (Return tt, s')
       /\ trace s' = trace s ++ tr
       /\ batches_of tr = chunks 128 (kept s)
       /\ opened tr = kept s.
Proof.
  intros Hlive. split; [|split].
  - intros subFolderPath s1 e s2 Hfail.
    cbn [copy_each]. rewrite bind_gets.
    assert (when (flagDebug s1)
              (fmt_Print ("Copying " +:+ src +:+ " to "
                 +:+ filepath_Join (Runtime := traced R) subFolderPath (Go.Base src))) s1
            = (Return tt,
               if flagDebug s1
               then set_output (output s1 ++ [Stdout ("Copying " +:+ src +:+ " to "
                      +:+ filepath_Join subFolderPath (Go.Base src))]) s1
               else s1)) as E1 by now destruct (flagDebug s1).
    rewrite (bind_returns _ _ _ _ _ E1), (bind_returns _ _ _ _ _ Hfail).
    reflexivity.
  - destruct (copy_group_calls R (before ++ src :: after) destPath idx s)
      as (s' & tr & E & T & N & O & _ & _).
    destruct (copyFilesToGroup_returns (R := traced R) (before ++ src :: after) destPath idx s)
      as (s'' & E' & _).
    unfold copy_group in E. rewrite (bind_returns _ _ _ _ _ E') in E.
    injection E as <-. rewrite Hlive in O.
    exists s'', tr. auto.
  - destruct (grouping_calls R destPath s) as (s' & tr & E & T & _ & O & B & _).
    rewrite Hlive in O. exists s', tr. auto.
Qed.

Lemma copy_failure_isolation_witness :
  exists s' tr,
    copyFilesToGroup (R := traced Sim.runtime) ([] ++ "/s/gone.wav"%string :: ["/s/kick_808.wav"%string])
      "/out" 1 (ex_found [] 128 false 1000 (ex_world_missing, []))
    = (Return None, s')
    /\ trace s' = [] ++ CMkdirAll "/out/group_1" 511 :: tr
    /\ no_mkdir tr
    /\ opened tr = ([] ++ "/s/gone.wav"%string :: ["/s/kick_808.wav"%string]).
Proof.
  apply (copy_failure_isolation Sim.runtime "/out" 1 [] ["/s/kick_808.wav"%string]
           "/s/gone.wav" (ex_found [] 128 false 1000 (ex_world_missing, []))).
  reflexivity.
Defined.

(** A batch whose first file has gone: its copy fails and is logged, the
    copy of the second file is made. *)
Example failed_copy_then_good_copy :
  let s' := exec (copyFilesToGroup (R := Sim.runtime)
                    ["/s/gone.wav"; "/s/kick_808.wav"]%string "/out" 1)
                 (ex_found [] 128 false 1000 ex_world_missing) in
  output s'
  = [Stdout "Copying 2 files to /out/group_1";
     Logged "Failed to copy /s/gone.wav to /out/group_1/gone.wav, continuing anyway - open /s/gone.wav: no such file or directory"]
  /\ Sim.files (world s') !! "/out/group_1/kick_808.wav"%string = Some "808"%string
  /\ Sim.files (world s') !! "/out/group_1/gone.wav"%string = None.
Proof. vm_compute. auto. Qed.

(** The batches of a live run, whatever the group-size flag holds: the
    matches below the cap in pieces of 128; their number is the quotient
    rounded up, the [i]-th holds the [i]-th window of 128 matches, and put
    end to end they are the matches below the cap. *)
Lemma grouping_batches {W H} (R : Runtime W H) (destPath : string)
      (s : state (W * list (call H))) :
  flagDryRun s = false ->
  exists s' tr,
    grouping (R := traced R) destPath s = (Return tt, s')
    /\ trace s' = trace s ++ tr
    /\ batches_of tr = chunks 128 (kept s)
    /\ length (batches_of tr) = ((length (kept s) + 127) / 128)%nat
    /\ (forall i, batches_of tr !! i
                  = if (i * 128 <? length (kept s))%nat
                    then Some (take 128 (drop (i * 128) (kept s))) else None)
    /\ concat (batches_of tr) = kept s.
Proof.
  intros Hlive.
  destruct (grouping_calls R destPath s) as (s' & tr & E & T & _ & _ & B & _).
  exists s', tr. rewrite (B Hlive).
  repeat split; try assumption.
  - rewrite chunks_length by lia. f_equal. lia.
  - intros i. apply chunks_lookup. lia.
  - apply concat_chunks. lia.
Qed.

(** C1, at the failing input.  With the group size set to 2 and three
    matches, the specification asks for the two batches [chunks 2]; the run
    makes one batch of three files in [group_1]: the flush test compares
    with 128, not with the flag. *)
Theorem group_size_flag_ignored :
  let s := Sim.start "/s" "wav" "/out" 2 false false 1000 (ex_world_three, []) in
  let s' := exec (main (R := traced Sim.runtime)) s in
  flagGroupSize s = 2
  /\ eval (main (R := traced Sim.runtime)) s = Return tt
  /\ matchingPaths s' = ex_three
  /\ chunks 2 ex_three = [["/s/a.wav"; "/s/b.wav"]; ["/s/c.wav"]]%string
  /\ batches_of (trace s') = [["/s/a.wav"; "/s/b.wav"; "/s/c.wav"]]%string
  /\ made_dirs (trace s') = ["/out/group_1"]%string
  /\ output s' = [Stdout "Found 3 matching files to copy";
                  Stdout "Copying 3 files to /out/group_1";
                  Stdout "Your files are in /out"]
  /\ Sim.files (fst (world s')) !! "/out/group_1/c.wav"%string = Some "c"%string.
Proof. vm_compute. repeat split. Qed.

(** C2, at the failing input.  The source tree holds two regular files that
    pass both tests, one of them in a directory that cannot be listed.  The
    discovery returns a nil error and a list that leaves that file out:
    [visit] does not look at the error [filepath.Walk] hands it for the
    directory, so the walk goes on without a word.  The run reports one match
    and copies one file; the other one is not copied. *)
Theorem discovery_omits_match_in_unlisted_directory :
  let hidden := "/s/private/kick_hidden.wav"%string in
  let s := Sim.start "/s" "Kick" "/out" 128 false false 1000 ex_world_unlisted in
  let s' := exec (main (R := Sim.runtime)) s in
  tree_files (R := Sim.runtime) "/s" (os_tree (Runtime := Sim.runtime) "/s" ex_world_unlisted)
  = [hidden; "/s/kick_808.wav"%string]
  /\ Go.Ext (strings_ToLower (Runtime := Sim.runtime) (Go.Base hidden)) = ".wav"%string
  /\ Go.Contains (strings_ToLower (Runtime := Sim.runtime) (Go.Base hidden))
                 (strings_ToLower (Runtime := Sim.runtime) "Kick") = true
  /\ eval (findMatchingFiles (R := Sim.runtime) "/s" "kick")
          (Sim.start "/s" "kick" "/out" 128 false false 1000 ex_world_unlisted)
     = Return (["/s/kick_808.wav"%string], None)
  /\ eval (main (R := Sim.runtime)) s = Return tt
  /\ matchingPaths s' = ["/s/kick_808.wav"%string]
  /\ output s' = [Stdout "Found 1 matching files to copy";
                  Stdout "Copying 1 files to /out/group_1";
                  Stdout "Your files are in /out"]
  /\ Sim.files (world s') !! "/out/group_1/kick_808.wav"%string = Some "808"%string
  /\ Sim.files (world s') !! "/out/group_1/kick_hidden.wav"%string = None.
Proof. vm_compute. repeat split. Qed.

(** C6, at the failing inputs.  A directory that cannot be listed is passed
    over: the discovery returns the other match with a nil error, the run
    goes on and copies it, and the match inside the directory is left out.
    An entry that cannot be stat'ed makes [visit] dereference a nil
    [FileInfo]: the run panics instead of reporting the error. *)
Theorem discovery_errors_not_propagated :
  let unlisted := Sim.start "/s" "kick" "/out" 128 false false 1000 ex_world_unlisted in
  let nostat := Sim.start "/s" "kick" "/out" 128 false false 1000 ex_world_nostat in
  eval (findMatchingFiles (R := Sim.runtime) "/s" "kick") unlisted
  = Return (["/s/kick_808.wav"%string], None)
  /\ eval (main (R := Sim.runtime)) unlisted = Return tt
  /\ Sim.files (world (exec (main (R := Sim.runtime)) unlisted))
       !! "/out/group_1/kick_808.wav"%string = Some "808"%string
  /\ tree_files (R := Sim.runtime) "/s" ex_tree_unlisted
     = ["/s/private/kick_hidden.wav"; "/s/kick_808.wav"]%string
  /\ is_match (R := Sim.runtime) "kick" "/s/private/kick_hidden.wav" = true
  /\ eval (main (R := Sim.runtime)) nostat
     = Panic "runtime error: invalid memory address or nil pointer dereference"
  /\ output (exec (main (R := Sim.runtime)) nostat) = [].
Proof. vm_compute. repeat split. Qed.

(** C7, at the failing input.  The destination is read-only, so
    [os.MkdirAll] fails; its error is dropped: nothing is logged about the
    folder, the copy of the file of the batch is started all the same (it
    fails at [os.Create] and that is what the log shows), and
    [copyFilesToGroup] returns nil. *)
Theorem mkdir_error_dropped :
  let s := ex_found [] 128 false 1000 (ex_world_ro, []) in
  let r := copyFilesToGroup (R := traced Sim.runtime) ["/s/kick_808.wav"%string] "/ro" 1 s in
  fst (os_MkdirAll (Runtime := Sim.runtime) "/ro/group_1" 511 ex_world_ro)
  = Some (Err "mkdir /ro/group_1: permission denied")
  /\ fst r = Return None
  /\ trace (snd r)
     = [CMkdirAll "/ro/group_1" 511; COpen "/s/kick_808.wav";
        CCreate "/ro/group_1/kick_808.wav"; CClose "/s/kick_808.wav"]%string
  /\ output (snd r)
     = [Stdout "Copying 1 files to /ro/group_1";
        Logged "Failed to copy /s/kick_808.wav to /ro/group_1/kick_808.wav, continuing anyway - open /ro/group_1/kick_808.wav: permission denied"].
Proof. vm_compute. repeat split. Qed.



(** C9, as stated, fails: a run whose source path has one byte and whose
    keyword is empty leaves through [os.Exit(1)] before the slice expression
    is reached. *)
Lemma one_byte_source_may_exit :
  ~ (forall s : state Sim.fs,
       String.length (flagSource s) = 1%nat ->
       exists msg, eval (main (R := Sim.runtime)) s = Panic msg).
Proof.
  intros Hpanic.
  destruct (Hpanic (Sim.start "a" "" "" 128 false false 1000 ex_world) eq_refl) as [msg E].
  vm_compute in E. discriminate E.
Qed.

(** C9, amended.  When the run gets as far as the tilde expansion (the
    source path and the keyword are not empty and the current user is
    known) and the source path, or the destination path given, has exactly
    one byte, the slice expression is out of range and [main] panics: the
    world is as it was, nothing has been found and nothing written. *)
Theorem short_path_panics {W H} {R : Runtime W H} (s : state W) (HomeDir : string) :
  flagSource s <> ""%string ->
  flagKeyword s <> ""%string ->
  user_Current (world s) = inl HomeDir ->
  String.length (flagSource s) = 1%nat \/ String.length (flagDestination s) = 1%nat ->
  exists s',
    main s = (Panic "runtime error: slice bounds out of range", s')
    /\ world s' = world s
    /\ matchingPaths s' = matchingPaths s
    /\ output s' = output s.
Proof.
  intros Hsrc Hkw Husr Hshort.
  assert (forall p home (st : state W),
            String.length p = 1%nat ->
            expand p home st = (Panic "runtime error: slice bounds out of range", st))
    as Hexpand.
  { intros p home st Hp. unfold expand, Go.slice_to. now rewrite Hp. }
  unfold main. rewrite bind_gets, bool_decide_eq_false_2 by done.
  rewrite bind_gets, bool_decide_eq_false_2 by done.
  unfold ask. unfold bind at 1. cbn [modify]. rewrite bind_gets.
  cbn [world set_flagKeyword]. rewrite Husr.
  rewrite bind_gets. cbn [flagDestination set_flagKeyword].
  destruct (decide (String.length (flagSource s) = 1%nat)) as [Hs1|Hs1].
  - destruct (bool_decide (flagDestination s = ""%string)).
    + unfold bind at 1. cbn [when modify]. rewrite bind_gets.
      cbn [flagSource set_flagDestination set_flagKeyword].
      unfold bind. rewrite Hexpand by done. eexists. split; [reflexivity | repeat split].
    + unfold bind at 1. cbn [when ret]. rewrite bind_gets.
      cbn [flagSource set_flagKeyword].
      unfold bind. rewrite Hexpand by done. eexists. split; [reflexivity | repeat split].
  - destruct Hshort as [?|Hd1]; [done|].
    rewrite bool_decide_eq_false_2 by (intros Hd; rewrite Hd in Hd1; discriminate).
    unfold bind at 1. cbn [when ret]. rewrite bind_gets.
    cbn [flagSource set_flagKeyword].
    assert (exists p, forall st : state W, expand (flagSource s) HomeDir st = (Return p, st))
      as [p Hp].
    { unfold expand, Go.slice_to.
      destruct (flagSource s) as [|c1 [|c2 r]] eqn:Hfs; [done | simpl in Hs1; done |].
      cbn [String.length Nat.leb].
      destruct (bool_decide _); eexists; intros st; reflexivity. }
    rewrite (bind_returns _ _ _ _ _ (Hp _)). rewrite bind_gets.
    cbn [flagDestination set_flagKeyword].
    unfold bind. rewrite Hexpand by done. eexists. split; [reflexivity | repeat split].
Qed.

Lemma short_path_panics_witness :
  exists s',
    main (R := Sim.runtime) (Sim.start "a" "kick" "/out" 128 false false 1000 ex_world)
    = (Panic "runtime error: slice bounds out of range", s')
    /\ world s' = ex_world
    /\ matchingPaths s' = []
    /\ output s' = [].
Proof.
  apply (short_path_panics (R := Sim.runtime)
           (Sim.start "a" "kick" "/out" 128 false false 1000 ex_world) "/home/u");
    try done.
  now left.
Defined.

(** * More properties of the program *)

(** ** Discovery *)

Section MoreDiscovery.
Context {W H : Type} {R : Runtime W H}.
Implicit Types s : state W.

Lemma walk_names_quiet_step (f : string -> entry -> M W (option error))
      path child rest s s1 :
  f (filepath_Join path (entry_name child)) child s = (Return None, s1) ->
  walk_names f path (child :: rest) s = walk_names f path rest s1.
Proof. intros E. cbn [walk_names]. now rewrite (bind_returns _ _ _ _ _ E). Qed.

(** The walk with [visit], on every tree: it panics when it reaches an
    entry that cannot be stat'ed, and otherwise returns nil having kept
    the files it reached that pass the filters. *)
Lemma walk_outcome t : forall path s,
  if stat_ok t
  then walk visit path t s
       = (Return None,
          note_matches s (filter (fun p => passes_filters (flagKeyword s) p = true)
                                 (walked_files path t)))
  else exists s', walk visit path t s
                  = (Panic "runtime error: invalid memory address or nil pointer dereference",
                     s').
Proof.
  induction t as [n e|n|n listing entries IH] using entry_ind'; intros path s.
  - cbn [stat_ok]. eexists. reflexivity.
  - cbn [stat_ok walk walked_files]. rewrite visit_file, filter_cons, filter_nil.
    destruct (passes_filters (flagKeyword s) path) eqn:E.
    + rewrite decide_True by done. reflexivity.
    + rewrite decide_False by done. reflexivity.
  - cbn [stat_ok walk walked_files].
    rewrite (bind_returns _ _ _ _ _ (visit_dir path n listing s)).
    destruct listing as [e|]; cbn [not_nil orb]; [reflexivity|].
    revert s. induction entries as [|c r IHr]; intros s; [reflexivity|].
    apply Forall_cons in IH as [IHc IHrest]. specialize (IHr IHrest).
    cbn [forallb flat_map].
    specialize (IHc (filepath_Join path (entry_name c)) s).
    destruct (stat_ok c); cbn [andb].
    + rewrite (walk_names_quiet_step _ _ _ _ _ _ IHc).
      match goal with |- context [walk_names _ path r ?s1] => specialize (IHr s1) end.
      destruct (forallb stat_ok r).
      * rewrite IHr, filter_app, note_matches_app.
        destruct (note_matches_frame
                    (filter (fun p => passes_filters (flagKeyword s) p = true)
                       (walked_files (filepath_Join path (entry_name c)) c)) s)
          as (_ & -> & _).
        reflexivity.
      * exact IHr.
    + destruct IHc as [s' E]. exists s'. cbn [walk_names]. unfold bind. now rewrite E.
Qed.

(** [findMatchingFiles] once the source has its absolute path. *)
Lemma findMatchingFiles_walk src keyword fullPath s :
  src <> ""%string ->
  filepath_Abs src (world s) = inl fullPath ->
  findMatchingFiles src keyword s
  = bind (walk visit fullPath (os_tree fullPath (world s)))
      (fun err =>
         bind (if bool_decide (err = Some SkipDir) || bool_decide (err = Some SkipAll)
               then ret None else ret err)
              (fun err => bind (gets matchingPaths) (fun found => ret (found, err)))) s.
Proof.
  intros Hsrc Habs. unfold findMatchingFiles. rewrite bool_decide_eq_false_2 by done.
  unfold ask at 1. rewrite bind_gets, Habs.
  unfold Walk, ask. now rewrite bind_assoc, bind_gets, bind_assoc.
Qed.

End MoreDiscovery.

(** ** Start-up of [main] *)

Section Startup.
Context {W H : Type} {R : Runtime W H}.
Implicit Types s : state W.

Lemma prefix_tilde_slash (p : string) :
  (2 <= String.length p)%nat ->
  bool_decide (String.substring 0 2 p = "~/"%string) = String.prefix "~/" p.
Proof.
  destruct p as [|c1 [|c2 r]]; cbn [String.length]; try lia. intros _.
  assert (String.substring 0 0 r = ""%string) as Hsub by now destruct r.
  assert (String.prefix "" r = true) as Hpre by now destruct r.
  cbn [String.substring String.prefix]. rewrite Hsub.
  destruct (Ascii.ascii_dec "~" c1) as [<-|H1].
  - destruct (Ascii.ascii_dec "/" c2) as [<-|H2].
    + rewrite Hpre. now apply bool_decide_eq_true_2.
    + apply bool_decide_eq_false_2. congruence.
  - apply bool_decide_eq_false_2. congruence.
Qed.

Lemma expand_long p home s :
  (2 <= String.length p)%nat -> expand p home s = (Return (expanded p home), s).
Proof.
  intros Hlen. unfold expand, expanded, Go.slice_to.
  destruct (Nat.leb_spec 2 (String.length p)); [|lia].
  rewrite prefix_tilde_slash by done.
  destruct (String.prefix "~/" p) eqn:Hp; [|reflexivity].
  destruct p as [|c1 r]; [discriminate|].
  cbn [String.prefix] in Hp. destruct (Ascii.ascii_dec "~" c1) as [<-|]; [|discriminate].
  cbn [Go.Replace_first String.prefix]. destruct (Ascii.ascii_dec "~" "~"); [|done].
  now destruct r.
Qed.

Lemma expand_short p home s :
  (String.length p < 2)%nat ->
  expand p home s = (Panic "runtime error: slice bounds out of range", s).
Proof.
  intros Hlen. unfold expand, Go.slice_to.
  destruct (Nat.leb_spec 2 (String.length p)); [lia | reflexivity].
Qed.

(** [main] up to the tilde expansion of the source. *)
Lemma main_to_source s home :
  flagSource s <> ""%string ->
  flagKeyword s <> ""%string ->
  user_Current (world s) = inl home ->
  main s
  = bind (expand (flagSource s) home)
      (fun sourcePath =>
         destination <- gets flagDestination ;;
         destPath <- expand destination home ;;
         keyword <- gets flagKeyword ;;
         found <- findMatchingFiles sourcePath keyword ;;
         modify (set_matchingPaths (fst found)) ;;
         match snd found with
         | Some e =>
             log_Print ("Something went wrong looking for matching files " +:+ Error e) ;;
             os_Exit 1
         | None =>
             n <- gets (fun s => Z.of_nat (length (matchingPaths s))) ;;
             fmt_Print ("Found " +:+ pretty n +:+ " matching files to copy") ;;
             grouping destPath ;;
             fmt_Print ("Your files are in " +:+ destPath)
         end)
      (started s home).
Proof.
  intros Hsrc Hkw Husr. unfold main, started.
  rewrite bind_gets, bool_decide_eq_false_2 by done.
  rewrite bind_gets, bool_decide_eq_false_2 by done.
  unfold ask. unfold bind at 1. cbn [modify]. rewrite bind_gets.
  cbn [world set_flagKeyword]. rewrite Husr.
  rewrite bind_gets. cbn [flagDestination set_flagKeyword].
  destruct (bool_decide (flagDestination s = ""%string));
    unfold bind at 1; cbn [when modify ret]; rewrite bind_gets; reflexivity.
Qed.

Lemma started_fields s home :
  world (started s home) = world s
  /\ output (started s home) = output s
  /\ matchingPaths (started s home) = matchingPaths s
  /\ flagKeyword (started s home) = strings_ToLower (flagKeyword s)
  /\ flagDestination (started s home) = destination_or_home s home
  /\ flagDryRun (started s home) = flagDryRun s
  /\ flagMax (started s home) = flagMax s
  /\ flagDebug (started s home) = flagDebug s.
Proof.
  unfold started, destination_or_home.
  destruct (bool_decide (flagDestination s = ""%string)); repeat split.
Qed.

(** [main] up to the discovery, when both paths have two bytes or more. *)
Lemma main_to_discovery s home :
  flagSource s <> ""%string ->
  flagKeyword s <> ""%string ->
  user_Current (world s) = inl home ->
  (2 <= String.length (flagSource s))%nat ->
  (2 <= String.length (destination_or_home s home))%nat ->
  main s
  = bind (findMatchingFiles (expanded (flagSource s) home)
                            (strings_ToLower (flagKeyword s)))
      (fun found =>
         modify (set_matchingPaths (fst found)) ;;
         match snd found with
         | Some e =>
             log_Print ("Something went wrong looking for matching files " +:+ Error e) ;;
             os_Exit 1
         | None =>
             n <- gets (fun s => Z.of_nat (length (matchingPaths s))) ;;
             fmt_Print ("Found " +:+ pretty n +:+ " matching files to copy") ;;
             grouping (expanded (destination_or_home s home) home) ;;
             fmt_Print ("Your files are in "
                        +:+ expanded (destination_or_home s home) home)
         end)
      (started s home).
Proof.
  intros Hsrc Hkw Husr Hls Hld. rewrite (main_to_source s home) by done.
  destruct (started_fields s home) as (_ & _ & _ & Ek & Ed & _).
  rewrite (bind_returns _ _ _ _ _ (expand_long _ _ _ Hls)).
  rewrite bind_gets, Ed.
  rewrite (bind_returns _ _ _ _ _ (expand_long _ _ _ Hld)).
  rewrite bind_gets, Ek. reflexivity.
Qed.

End Startup.

(** ** Properties of [main] before the copy *)

(** X1. A run without a source path, or without a keyword, ends with exit
    status 1 after an explanation and the usage text; it has looked at
    nothing and found nothing. *)
Theorem missing_flag_exits {W H} {R : Runtime W H} (s : state W) :
  flagSource s = ""%string \/ flagKeyword s = ""%string ->
  exists s' msg,
    main s = (Exit 1, s')
    /\ world s' = world s
    /\ matchingPaths s' = matchingPaths s
    /\ flagKeyword s' = flagKeyword s
    /\ output s' = output s ++ [Logged msg; UsageText].
Proof.
  intros Hmissing. unfold main. rewrite bind_gets.
  case_bool_decide as Hsrc.
  - eexists _, _. split; [reflexivity|]. cbn. rewrite <- app_assoc. repeat split.
  - destruct Hmissing as [?|Hkw]; [done|].
    rewrite bind_gets, bool_decide_eq_true_2 by done.
    eexists _, _. split; [reflexivity|]. cbn. rewrite <- app_assoc. repeat split.
Qed.

Lemma missing_flag_exits_witness :
  exists s' msg,
    main (R := Sim.runtime) (Sim.start "/s" "" "/out" 128 false false 1000 ex_world)
    = (Exit 1, s')
    /\ world s' = ex_world
    /\ matchingPaths s' = []
    /\ flagKeyword s' = ""%string
    /\ output s' = [] ++ [Logged msg; UsageText].
Proof.
  apply (missing_flag_exits (R := Sim.runtime)
           (Sim.start "/s" "" "/out" 128 false false 1000 ex_world)).
  now right.
Defined.

(** X2. When the current user cannot be found, the run ends with exit status
    1 and one log line, before any path is looked at. *)
Theorem unknown_user_exits {W H} {R : Runtime W H} (s : state W) (e : error) :
  flagSource s <> ""%string ->
  flagKeyword s <> ""%string ->
  user_Current (world s) = inr e ->
  exists s',
    main s = (Exit 1, s')
    /\ world s' = world s
    /\ matchingPaths s' = matchingPaths s
    /\ output s' = output s ++ [Logged "Failed to get the user home directory"].
Proof.
  intros Hsrc Hkw Husr. unfold main.
  rewrite bind_gets, bool_decide_eq_false_2 by done.
  rewrite bind_gets, bool_decide_eq_false_2 by done.
  unfold ask. unfold bind at 1. cbn [modify]. rewrite bind_gets.
  cbn [world set_flagKeyword]. rewrite Husr.
  eexists. split; [reflexivity|]. repeat split.
Qed.

Lemma unknown_user_exits_witness :
  exists s',
    main (R := Sim.runtime) (Sim.start "/s" "kick" "/out" 128 false false 1000 ex_world_lost)
    = (Exit 1, s')
    /\ world s' = ex_world_lost
    /\ matchingPaths s' = []
    /\ output s' = [] ++ [Logged "Failed to get the user home directory"].
Proof.
  apply (unknown_user_exits (R := Sim.runtime)
           (Sim.start "/s" "kick" "/out" 128 false false 1000 ex_world_lost)
           (Err "user: unknown userid 1000")); done.
Defined.

(** X3. The tilde expansion, on every path: a path shorter than two bytes
    panics; a path that starts with [~/] has its tilde replaced by the home
    directory; every other path is kept as it is.  The state is not
    changed. *)
Theorem tilde_expansion {W H} {R : Runtime W H} (p home : string) (s : state W) :
  expand p home s
  = if (String.length p <? 2)%nat
    then (Panic "runtime error: slice bounds out of range", s)
    else if String.prefix "~/" p
         then (Return (home +:+ Go.drop_bytes 1 p), s)
         else (Return p, s).
Proof.
  destruct (Nat.ltb_spec (String.length p) 2).
  - now apply expand_short.
  - rewrite expand_long by done. unfold expanded.
    now destruct (String.prefix "~/" p).
Qed.

(** X4. With no destination given, the home directory is the destination
    and goes through the tilde expansion too: a home directory shorter than
    two bytes, such as [/], makes the run panic before the discovery. *)
Theorem short_home_panics {W H} {R : Runtime W H} (s : state W) (home : string) :
  flagSource s <> ""%string ->
  flagKeyword s <> ""%string ->
  user_Current (world s) = inl home ->
  (2 <= String.length (flagSource s))%nat ->
  flagDestination s = ""%string ->
  (String.length home < 2)%nat ->
  exists s',
    main s = (Panic "runtime error: slice bounds out of range", s')
    /\ world s' = world s
    /\ matchingPaths s' = matchingPaths s
    /\ output s' = output s.
Proof.
  intros Hsrc Hkw Husr Hls Hdest Hhome.
  rewrite (main_to_source s home) by done.
  rewrite (bind_returns _ _ _ _ _ (expand_long _ _ _ Hls)).
  destruct (started_fields s home) as (Ew & Eo & Em & _ & Ed & _).
  rewrite bind_gets, Ed. unfold destination_or_home.
  rewrite bool_decide_eq_true_2 by done.
  unfold bind. rewrite expand_short by done.
  exists (started s home). auto.
Qed.

Lemma short_home_panics_witness :
  exists s',
    main (R := Sim.runtime) (Sim.start "/s" "kick" "" 128 false false 1000 ex_world_root_home)
    = (Panic "runtime error: slice bounds out of range", s')
    /\ world s' = ex_world_root_home
    /\ matchingPaths s' = []
    /\ output s' = [].
Proof.
  apply (short_home_panics (R := Sim.runtime)
           (Sim.start "/s" "kick" "" 128 false false 1000 ex_world_root_home) "/");
    first [reflexivity | done | vm_compute; lia].
Defined.

(** X5. When the absolute path of the source cannot be found, the run logs
    the error and ends with exit status 1: the walk is not started, the list
    of matches is nil and nothing is copied. *)
Theorem discovery_error_exits {W H} {R : Runtime W H} (s : state W) (home : string)
        (e : error) :
  flagSource s <> ""%string ->
  flagKeyword s <> ""%string ->
  user_Current (world s) = inl home ->
  (2 <= String.length (flagSource s))%nat ->
  (2 <= String.length (destination_or_home s home))%nat ->
  filepath_Abs (expanded (flagSource s) home) (world s) = inr e ->
  exists s',
    main s = (Exit 1, s')
    /\ world s' = world s
    /\ matchingPaths s' = []
    /\ output s'
       = output s
         ++ [Logged ("Something went wrong looking for matching files "
                     +:+ "couldn't get the absolute path of the source - " +:+ Error e)].
Proof.
  intros Hsrc Hkw Husr Hls Hld Habs.
  rewrite (main_to_discovery s home) by done.
  destruct (started_fields s home) as (Ew & Eo & _).
  assert (expanded (flagSource s) home <> ""%string) as Hne.
  { unfold expanded. destruct (String.prefix "~/" (flagSource s)) eqn:Hp.
    - destruct (flagSource s) as [|c1 [|c2 r]]; cbn in Hls; try lia.
      cbn [Go.drop_bytes]. destruct home; discriminate.
    - exact Hsrc. }
  rewrite (bind_returns _ _ _ _ _
             (abs_error_is_reported _ _ (started s home) e Hne
                ltac:(rewrite Ew; exact Habs))).
  eexists. split; [reflexivity|]. cbn. rewrite Ew, Eo. repeat split.
Qed.

Lemma discovery_error_exits_witness :
  exists s',
    main (R := Sim.runtime)
         (Sim.start "samples" "kick" "/out" 128 false false 1000 ex_world_no_cwd)
    = (Exit 1, s')
    /\ world s' = ex_world_no_cwd
    /\ matchingPaths s' = []
    /\ output s'
       = [] ++ [Logged ("Something went wrong looking for matching files "
                        +:+ "couldn't get the absolute path of the source - "
                        +:+ "getwd: no such file or directory")].
Proof.
  apply (discovery_error_exits (R := Sim.runtime)
           (Sim.start "samples" "kick" "/out" 128 false false 1000 ex_world_no_cwd)
           "/home/u" (Err "getwd: no such file or directory"));
    first [reflexivity | done | vm_compute; lia].
Defined.

(** ** Properties of the discovery *)

(** X6. The discovery on a tree in which every entry the walk reaches can be
    stat'ed: it returns nil as error and, as list, what [matchingPaths]
    held before followed by the files the walk reached that pass the
    filters, in walk order.  Files below a directory that cannot be listed
    are not reached; the world is not changed. *)
Theorem discovery_lists_what_the_walk_reaches {W H} {R : Runtime W H}
        (src keyword fullPath : string) (s : state W) :
  src <> ""%string ->
  filepath_Abs src (world s) = inl fullPath ->
  stat_ok (os_tree fullPath (world s)) = true ->
  exists s',
    findMatchingFiles src keyword s
    = (Return (matchingPaths s
               ++ filter (fun p => passes_filters (flagKeyword s) p = true)
                         (walked_files fullPath (os_tree fullPath (world s))),
               None), s')
    /\ world s' = world s
    /\ matchingPaths s'
       = matchingPaths s
         ++ filter (fun p => passes_filters (flagKeyword s) p = true)
                   (walked_files fullPath (os_tree fullPath (world s))).
Proof.
  intros Hsrc Habs Hok.
  rewrite (findMatchingFiles_walk src keyword fullPath s) by done.
  pose proof (walk_outcome (os_tree fullPath (world s)) fullPath s) as Hwalk.
  rewrite Hok in Hwalk. rewrite (bind_returns _ _ _ _ _ Hwalk).
  rewrite !bool_decide_eq_false_2 by done. cbn [orb].
  rewrite bind_ret_l, bind_gets.
  match goal with |- context [note_matches s ?l] =>
    destruct (note_matches_frame l s) as (Em & _ & Ew)
  end.
  eexists. split; [rewrite Em; reflexivity|]. auto.
Qed.

Lemma discovery_lists_what_the_walk_reaches_witness :
  exists s',
    findMatchingFiles (R := Sim.runtime) "/s" "unused"
      (Sim.start "/s" "kick" "/out" 128 false false 1000 ex_world_unlisted)
    = (Return ([] ++ ["/s/kick_808.wav"%string], None), s')
    /\ world s' = ex_world_unlisted
    /\ matchingPaths s' = [] ++ ["/s/kick_808.wav"%string].
Proof.
  apply (discovery_lists_what_the_walk_reaches (R := Sim.runtime) "/s" "unused" "/s"
           (Sim.start "/s" "kick" "/out" 128 false false 1000 ex_world_unlisted));
    first [reflexivity | done].
Defined.

(** X7. The discovery on a tree in which the walk reaches an entry that
    cannot be stat'ed: it panics with a nil dereference; no list and no
    error is returned. *)
Theorem discovery_panics_on_stat_error {W H} {R : Runtime W H}
        (src keyword fullPath : string) (s : state W) :
  src <> ""%string ->
  filepath_Abs src (world s) = inl fullPath ->
  stat_ok (os_tree fullPath (world s)) = false ->
  exists s',
    findMatchingFiles src keyword s
    = (Panic "runtime error: invalid memory address or nil pointer dereference", s').
Proof.
  intros Hsrc Habs Hbad.
  rewrite (findMatchingFiles_walk src keyword fullPath s) by done.
  pose proof (walk_outcome (os_tree fullPath (world s)) fullPath s) as Hwalk.
  rewrite Hbad in Hwalk. destruct Hwalk as [s' E].
  exists s'. unfold bind. now rewrite E.
Qed.

Lemma discovery_panics_on_stat_error_witness :
  exists s',
    findMatchingFiles (R := Sim.runtime) "/s" "kick"
      (Sim.start "/s" "kick" "/out" 128 false false 1000 ex_world_nostat)
    = (Panic "runtime error: invalid memory address or nil pointer dereference", s').
Proof.
  apply (discovery_panics_on_stat_error (R := Sim.runtime) "/s" "kick" "/s"
           (Sim.start "/s" "kick" "/out" 128 false false 1000 ex_world_nostat));
    first [reflexivity | done].
Defined.

(** X8. When the discovery returns an error, the list it returns is nil, the
    state is as it was, and the error is one of the two that
    [findMatchingFiles] makes itself: the source is empty, or its absolute
    path cannot be found. *)
Theorem discovery_error_only_from_source_path {W H} {R : Runtime W H}
        (src keyword : string) (s s' : state W) (found : list string) (e : error) :
  findMatchingFiles src keyword s = (Return (found, Some e), s') ->
  found = [] /\ s' = s
  /\ ((src = ""%string /\ e = Err "missing source folder location")
      \/ (src <> ""%string
          /\ exists e', filepath_Abs src (world s) = inr e'
                        /\ e = Err ("couldn't get the absolute path of the source - "
                                    +:+ Error e'))).
Proof.
  intros Hrun.
  destruct (decide (src = ""%string)) as [->|Hsrc].
  - cbn in Hrun. injection Hrun as <- <- <-. auto.
  - destruct (filepath_Abs src (world s)) as [fullPath|e'] eqn:Habs.
    + exfalso.
      destruct (findMatchingFiles_error src keyword s found e s' Hrun) as [?|[e' He']];
        [done | congruence].
    + rewrite (abs_error_is_reported src keyword s e' Hsrc Habs) in Hrun.
      injection Hrun as <- <- <-. split; [reflexivity|]. split; [reflexivity|].
      right. split; [exact Hsrc|]. now exists e'.
Qed.

Lemma discovery_error_only_from_source_path_witness :
  @nil string = []
  /\ Sim.start "" "kick" "/out" 128 false false 1000 ex_world
     = Sim.start "" "kick" "/out" 128 false false 1000 ex_world
  /\ ((""%string = ""%string
       /\ Err "missing source folder location" = Err "missing source folder location")
      \/ (""%string <> ""%string
          /\ exists e', filepath_Abs (Runtime := Sim.runtime) "" ex_world = inr e'
                        /\ Err "missing source folder location"
                           = Err ("couldn't get the absolute path of the source - "
                                  +:+ Error e'))).
Proof.
  apply (discovery_error_only_from_source_path (R := Sim.runtime) "" "kick"
           (Sim.start "" "kick" "/out" 128 false false 1000 ex_world)
           (Sim.start "" "kick" "/out" 128 false false 1000 ex_world)
           [] (Err "missing source folder location")).
  reflexivity.
Defined.

(** ** The whole run *)

Section WholeRun.
Context {W H : Type} {R : Runtime W H}.
Implicit Types s : state W.

Lemma note_matches_flags paths : forall s,
  flagMax (note_matches s paths) = flagMax s
  /\ flagDryRun (note_matches s paths) = flagDryRun s
  /\ flagDebug (note_matches s paths) = flagDebug s.
Proof.
  induction paths as [|p r IH]; intros s; [repeat split|].
  cbn [note_matches foldl]. destruct (IH (note_match s p)) as (E1 & E2 & E3).
  unfold note_matches in *. rewrite E1, E2, E3.
  unfold note_match. destruct (flagDebug s) eqn:Ed; cbn; rewrite ?Ed; repeat split.
Qed.

(** The discovery when every entry reached can be stat'ed, with the state it
    leaves. *)
Lemma findMatchingFiles_stat_ok src keyword fullPath s :
  src <> ""%string ->
  filepath_Abs src (world s) = inl fullPath ->
  stat_ok (os_tree fullPath (world s)) = true ->
  findMatchingFiles src keyword s
  = (Return (matchingPaths s
             ++ filter (fun p => passes_filters (flagKeyword s) p = true)
                       (walked_files fullPath (os_tree fullPath (world s))),
             None),
     note_matches s (filter (fun p => passes_filters (flagKeyword s) p = true)
                            (walked_files fullPath (os_tree fullPath (world s))))).
Proof.
  intros Hsrc Habs Hok.
  rewrite (findMatchingFiles_walk src keyword fullPath s) by done.
  pose proof (walk_outcome (os_tree fullPath (world s)) fullPath s) as Hwalk.
  rewrite Hok in Hwalk. rewrite (bind_returns _ _ _ _ _ Hwalk).
  rewrite !bool_decide_eq_false_2 by done. cbn [orb].
  rewrite bind_ret_l, bind_gets.
  match goal with |- context [note_matches s ?l] =>
    destruct (note_matches_frame l s) as (-> & _ & _)
  end.
  reflexivity.
Qed.

Lemma expanded_not_empty p home :
  (2 <= String.length p)%nat -> expanded p home <> ""%string.
Proof.
  intros Hlen. unfold expanded. destruct (String.prefix "~/" p).
  - destruct p as [|c1 [|c2 r]]; cbn in Hlen; try lia.
    cbn [Go.drop_bytes]. destruct home; discriminate.
  - destruct p; [cbn in Hlen; lia | discriminate].
Qed.

End WholeRun.

(** X9. A whole run that meets no failure before the copy, seen through its
    calls: [main] returns; [matchingPaths] holds the files the walk reached
    that match the keyword; the folders made are [group_1], [group_2], ...
    of the expanded destination, one for each batch of 128 of the matches
    below the cap; in a live run the files whose copy is started are the
    matches below the cap, batch by batch and in order, and in a dry run
    none is; the last line written names the destination. *)
Theorem main_end_to_end {W H} (R : Runtime W H) (s : state (W * list (call H)))
        (home fullPath : string) :
  flagSource s <> ""%string ->
  flagKeyword s <> ""%string ->
  user_Current (fst (world s)) = inl home ->
  (2 <= String.length (flagSource s))%nat ->
  (2 <= String.length (destination_or_home s home))%nat ->
  filepath_Abs (expanded (flagSource s) home) (fst (world s)) = inl fullPath ->
  stat_ok (os_tree fullPath (fst (world s))) = true ->
  matchingPaths s = [] ->
  let found := filter (fun p => is_match (flagKeyword s) p = true)
                      (walked_files fullPath (os_tree fullPath (fst (world s)))) in
  let copied := take (Z.to_nat (flagMax s)) found in
  let destPath := expanded (destination_or_home s home) home in
  exists s' tr,
    main (R := traced R) s = (Return tt, s')
    /\ matchingPaths s' = found
    /\ trace s' = trace s ++ tr
    /\ made_dirs tr = group_folders (R := R) destPath 1 (length (chunks 128 copied))
    /\ opened tr = (if flagDryRun s then [] else copied)
    /\ (flagDryRun s = false -> batches_of tr = chunks 128 copied)
    /\ last (output s') = Some (Stdout ("Your files are in " +:+ destPath)).
Proof.
  intros Hsrc Hkw Husr Hls Hld Habs Hok Hempty found copied destPath.
  rewrite (main_to_discovery (R := traced R) s home Hsrc Hkw Husr Hls Hld).
  destruct (started_fields (R := traced R) s home)
    as (Ew & Eo & Em & Ek & Ed & Edry & Emax & Edbg).
  set (s1 := started (R := traced R) s home) in *.
  assert (filepath_Abs (Runtime := traced R) (expanded (flagSource s) home) (world s1)
          = inl fullPath) as Habs1 by (rewrite Ew; exact Habs).
  assert (stat_ok (os_tree (Runtime := traced R) fullPath (world s1)) = true) as Hok1
    by (rewrite Ew; exact Hok).
  rewrite (bind_returns _ _ _ _ _
             (findMatchingFiles_stat_ok (R := traced R) _ _ fullPath s1
                (expanded_not_empty _ _ Hls) Habs1 Hok1)).
  rewrite Ek, Em, Hempty, Ew. cbn [app fst snd].
  change (filter _ (walked_files (R := traced R) fullPath
                      (os_tree (Runtime := traced R) fullPath (world s)))) with found.
  destruct (note_matches_frame found s1) as (Fm & _ & Fw).
  destruct (note_matches_flags found s1) as (Fmax & Fdry & _).
  set (s2 := note_matches s1 found) in *.
  unfold modify at 1. unfold bind at 1. rewrite bind_gets.
  unfold fmt_Print at 1. rewrite bind_emit.
  match goal with |- context [bind (grouping ?d) _ ?s0] =>
    destruct (grouping_calls R d s0) as (s3 & tr & E & T & D & O & B & _ & G)
  end.
  rewrite (bind_returns _ _ _ _ _ E).
  unfold kept in D, O, B.
  cbn [flagMax flagDryRun matchingPaths set_output set_matchingPaths trace world] in D, O, B, T.
  rewrite Fmax, Emax in D, O, B. rewrite Fdry, Edry in O, B.
  unfold trace in T. cbn [world set_output set_matchingPaths] in T.
  rewrite Fw, Ew in T. fold (trace s) in T. fold (trace s3) in T.
  eexists _, tr. split; [reflexivity|].
  cbn [matchingPaths output set_output trace world].
  split; [transitivity (matchingPaths (set_output (output s2
             ++ [Stdout ("Found " +:+ pretty (Z.of_nat (length found))
                         +:+ " matching files to copy")])
             (set_matchingPaths found s2))); [apply G | reflexivity]|].
  split; [exact T|]. split; [exact D|]. split; [exact O|]. split; [exact B|].
  apply last_snoc.
Qed.

Lemma main_end_to_end_witness :
  exists s' tr,
    main (R := traced Sim.runtime)
         (Sim.start "/s" "Kick" "/out" 128 false false 1 (ex_world, []))
    = (Return tt, s')
    /\ matchingPaths s' = ["/s/KICK_perc.aiff"; "/s/kick_808.wav"]%string
    /\ trace s' = [] ++ tr
    /\ made_dirs tr = ["/out/group_1"%string]
    /\ opened tr = ["/s/KICK_perc.aiff"%string]
    /\ (false = false -> batches_of tr = [["/s/KICK_perc.aiff"%string]])
    /\ last (output s') = Some (Stdout "Your files are in /out").
Proof.
  apply (main_end_to_end Sim.runtime
           (Sim.start "/s" "Kick" "/out" 128 false false 1 (ex_world, []))
           "/home/u" "/s");
    first [reflexivity | done | vm_compute; lia].
Defined.

(** ** Properties of the copy *)

Section MoreCopy.
Context {W H : Type} (R : Runtime W H).
Implicit Types s : state (W * list (call H)).

(** The calls of a live per-file copy, with its result. *)
Lemma copyFileContents_live_calls src dst s :
  flagDryRun s = false ->
  exists r s' tr,
    copyFileContents (R := traced R) src dst s = (Return r, s')
    /\ trace s' = trace s ++ tr
    /\ copy_calls src dst r tr
    /\ output s' = output s
    /\ same_globals s s'.
Proof.
  intros Hlive. unfold copyFileContents. rewrite bind_gets, Hlive.
  cbn [os_Open os_Create io_Copy file_Sync file_Close traced].
  rewrite bind_sys_recording.
  destruct (fst (os_Open src (fst (world s)))) as [in_|e].
  - rewrite bind_sys_recording. cbn [world set_world fst snd].
    destruct (fst (os_Create dst _)) as [out|e].
    + rewrite bind_sys_recording. cbn [world set_world fst snd].
      destruct (fst (io_Copy out in_ _)) as [e|].
      * rewrite !bind_sys_recording. cbn [world set_world fst snd trace].
        eexists _, _, _. split; [reflexivity|].
        cbn [trace world snd]. rewrite <- !app_assoc.
        split; [reflexivity|]. split; [apply (calls_copy_failed src dst e in_ out)|].
        repeat split.
      * rewrite !bind_sys_recording. cbn [world set_world fst snd trace].
        eexists _, _, _. split; [reflexivity|].
        cbn [trace world snd]. rewrite <- !app_assoc.
        split; [reflexivity|]. split; [apply (calls_all src dst _ in_ out)|].
        repeat split.
    + rewrite bind_sys_recording. cbn [world set_world fst snd trace].
      eexists _, _, _. split; [reflexivity|].
      cbn [trace world snd]. rewrite <- !app_assoc.
      split; [reflexivity|]. split; [apply (calls_create_failed src dst e in_)|].
      repeat split.
  - eexists _, _, _. split; [reflexivity|].
    split; [reflexivity|]. split; [apply calls_open_failed|]. repeat split.
Qed.

Lemma created_app (tr1 tr2 : list (call H)) :
  created (tr1 ++ tr2) = created tr1 ++ created tr2.
Proof.
  induction tr1 as [|c tr1 IH]; [done|].
  destruct c; simpl; rewrite ?IH; reflexivity.
Qed.

Lemma copy_calls_created src dst r (tr : list (call H)) :
  copy_calls src dst r tr -> created tr = [] \/ created tr = [dst].
Proof. intros [e|e in_|e in_ out|r' in_ out]; cbn; auto. Qed.

(** What a per-file copy creates, in a dry run or not. *)
Lemma copyFileContents_created src dst s :
  exists r s' tr,
    copyFileContents (R := traced R) src dst s = (Return r, s')
    /\ trace s' = trace s ++ tr
    /\ (created tr = [] \/ created tr = [dst])
    /\ same_globals s s'.
Proof.
  destruct (flagDryRun s) eqn:Hdry.
  - destruct (copyFileContents_calls R src dst s) as (r & s' & tr & E & T & _ & _ & D & G).
    exists r, s', tr. rewrite (D Hdry) in *. auto.
  - destruct (copyFileContents_live_calls src dst s Hdry) as (r & s' & tr & E & T & C & _ & G).
    exists r, s', tr. split; [exact E|]. split; [exact T|].
    split; [eapply copy_calls_created; exact C | exact G].
Qed.

Lemma copy_each_created subFolderPath srcPaths : forall s,
  exists s' tr,
    copy_each (R := traced R) subFolderPath srcPaths s = (Return tt, s')
    /\ trace s' = trace s ++ tr
    /\ created tr `sublist_of` map (dest_name (R := R) subFolderPath) srcPaths.
Proof.
  induction srcPaths as [|src rest IH]; intros s.
  - exists s, []. split; [reflexivity|]. rewrite app_nil_r. split; [reflexivity | constructor].
  - cbn [copy_each]. rewrite bind_gets.
    set (dest := filepath_Join (Runtime := traced R) subFolderPath (Go.Base src)).
    set (s1 := if flagDebug s
               then set_output (output s ++ [Stdout ("Copying " +:+ src +:+ " to " +:+ dest)]) s
               else s).
    assert (when (flagDebug s) (fmt_Print ("Copying " +:+ src +:+ " to " +:+ dest)) s
            = (Return tt, s1)) as E1 by (subst s1; now destruct (flagDebug s)).
    assert (trace s1 = trace s) as T1 by (subst s1; now destruct (flagDebug s)).
    rewrite (bind_returns _ _ _ _ _ E1).
    destruct (copyFileContents_created src dest s1) as (r & s2 & tr2 & E2 & T2 & C2 & _).
    rewrite (bind_returns _ _ _ _ _ E2).
    set (s3 := match r with
               | Some e => set_output (output s2 ++ [Logged ("Failed to copy " +:+ src
                             +:+ " to " +:+ dest +:+ ", continuing anyway - " +:+ Error e)]) s2
               | None => s2
               end).
    assert (trace s3 = trace s2) as T3 by (subst s3; now destruct r).
    destruct (IH s3) as (s4 & tr4 & E4 & T4 & C4).
    exists s4, (tr2 ++ tr4). split; [subst s3; destruct r; exact E4|].
    split; [rewrite T4, T3, T2, T1; now rewrite app_assoc|].
    rewrite created_app. cbn [map].
    destruct C2 as [-> | ->]; cbn [app].
    + now apply sublist_cons.
    + now apply sublist_skip.
Qed.

End MoreCopy.

(** ** The copy on the in-memory file system *)

Section SimCopy.
Implicit Types s : state Sim.fs.

(** A live copy of an existing source to a destination that can be
    created: it returns nil and the destination holds the bytes of the
    source, or nothing when it is the source itself. *)
Lemma sim_copy_ok src dst bytes s :
  flagDryRun s = false ->
  Sim.files (world s) !! src = Some bytes ->
  Sim.is_locked dst (world s) = false ->
  copyFileContents (R := Sim.runtime) src dst s
  = (Return None,
     set_world (Sim.with_files
                  (<[dst := if decide (src = dst) then ""%string else bytes]>
                     (Sim.files (world s))) (world s)) s).
Proof.
  intros Hlive Hsrc Hfree.
  unfold copyFileContents. rewrite bind_gets, Hlive, bind_sys.
  cbn [os_Open os_Create io_Copy file_Sync file_Close Sim.runtime].
  unfold Sim.Open at 1 2. rewrite Hsrc. cbn [fst snd].
  rewrite bind_sys. cbn [world set_world].
  unfold Sim.Create at 1 2. rewrite Hfree. cbn [fst snd].
  rewrite bind_sys. cbn [world set_world].
  unfold Sim.Copy at 1 2. cbn [Sim.files Sim.with_files].
  assert (<[dst := ""%string]> (Sim.files (world s)) !! src
          = Some (if decide (src = dst) then ""%string else bytes)) as ->.
  { destruct (decide (src = dst)) as [->|Hne].
    - apply lookup_insert_eq.
    - now rewrite lookup_insert_ne. }
  cbn [fst snd]. rewrite !bind_sys. cbn [fst snd world set_world].
  unfold ret. apply (f_equal (fun w => (Return None, set_world w s))).
  unfold Sim.with_files. cbn [Sim.files Sim.dirs Sim.locked Sim.tree Sim.home Sim.cwd].
  now rewrite insert_insert_eq.
Qed.

(** Whatever happens, a per-file copy leaves every file but its destination
    as it was, and does not change what is locked. *)
Lemma sim_copy_frame src dst s :
  exists r s',
    copyFileContents (R := Sim.runtime) src dst s = (Return r, s')
    /\ (forall other, other <> dst ->
          Sim.files (world s') !! other = Sim.files (world s) !! other)
    /\ Sim.locked (world s') = Sim.locked (world s)
    /\ same_globals s s'.
Proof.
  unfold copyFileContents. rewrite bind_gets.
  destruct (flagDryRun s) eqn:Hdry.
  { eexists _, _. split; [reflexivity|]. repeat split. }
  rewrite bind_sys.
  cbn [os_Open os_Create io_Copy file_Sync file_Close Sim.runtime].
  unfold Sim.Open at 1 2.
  destruct (Sim.files (world s) !! src) as [bytes|] eqn:Hsrc; cbn [fst snd].
  2: { eexists _, _. split; [reflexivity|]. repeat split. }
  rewrite bind_sys. cbn [world set_world].
  unfold Sim.Create at 1 2.
  destruct (Sim.is_locked dst (world s)) eqn:Hlock; cbn [fst snd].
  { rewrite bind_sys. eexists _, _. split; [reflexivity|]. repeat split. }
  rewrite bind_sys. cbn [world set_world].
  unfold Sim.Copy at 1 2. cbn [Sim.files Sim.with_files].
  destruct (<[dst := ""%string]> (Sim.files (world s)) !! src) as [b|] eqn:Hb;
    cbn [fst snd]; rewrite !bind_sys; cbn [fst snd world set_world];
    (eexists _, _; split; [reflexivity|]);
    cbn [world set_world Sim.with_files Sim.files Sim.locked];
    (split; [intros other Hother; now rewrite ?lookup_insert_ne by done|]);
    repeat split.
Qed.

Lemma sim_copy_each_frame subFolderPath srcPaths : forall s,
  exists s',
    copy_each (R := Sim.runtime) subFolderPath srcPaths s = (Return tt, s')
    /\ (forall p, p ∉ map (dest_name (R := Sim.runtime) subFolderPath) srcPaths ->
          Sim.files (world s') !! p = Sim.files (world s) !! p)
    /\ Sim.locked (world s') = Sim.locked (world s).
Proof.
  induction srcPaths as [|src rest IH]; intros s.
  { exists s. repeat split. }
  cbn [copy_each]. rewrite bind_gets.
  set (dest := filepath_Join (Runtime := Sim.runtime) subFolderPath (Go.Base src)).
  set (s1 := if flagDebug s
             then set_output (output s ++ [Stdout ("Copying " +:+ src +:+ " to " +:+ dest)]) s
             else s).
  assert (when (flagDebug s) (fmt_Print ("Copying " +:+ src +:+ " to " +:+ dest)) s
          = (Return tt, s1)) as E1 by (subst s1; now destruct (flagDebug s)).
  assert (world s1 = world s) as W1 by (subst s1; now destruct (flagDebug s)).
  rewrite (bind_returns _ _ _ _ _ E1).
  destruct (sim_copy_frame src dest s1) as (r & s2 & E2 & F & L & _).
  rewrite (bind_returns _ _ _ _ _ E2).
  set (s3 := match r with
             | Some e => set_output (output s2 ++ [Logged ("Failed to copy " +:+ src
                           +:+ " to " +:+ dest +:+ ", continuing anyway - " +:+ Error e)]) s2
             | None => s2
             end).
  assert (world s3 = world s2) as W3 by (subst s3; now destruct r).
  destruct (IH s3) as (s4 & E4 & Frest & Lrest).
  exists s4. split; [subst s3; destruct r; exact E4|]. split.
  - intros p Hp. cbn [map] in Hp. apply not_elem_of_cons in Hp as [Hne Hrest].
    rewrite (Frest p Hrest), W3, (F p Hne), W1. reflexivity.
  - now rewrite Lrest, W3, L, W1.
Qed.

End SimCopy.

(** ** What the copy creates, and where *)

Section CreatedCalls.
Context {W H : Type} (R : Runtime W H).
Implicit Types s : state (W * list (call H)).

Lemma copy_group_created files destPath idx s :
  exists s' tr,
    copy_group (R := traced R) files destPath idx s = (Return tt, s')
    /\ trace s' = trace s ++ CMkdirAll (group_folder (R := R) destPath idx) 511 :: tr
    /\ created tr `sublist_of` map (dest_name (R := R) (group_folder (R := R) destPath idx)) files
    /\ same_globals s s'.
Proof.
  unfold copy_group, copyFilesToGroup, fmt_Print.
  rewrite bind_assoc. cbn [os_MkdirAll traced].
  rewrite bind_sys_recording, bind_assoc, bind_emit, bind_assoc.
  match goal with |- context [bind (copy_each ?p ?l) _ ?s0] =>
    destruct (copy_each_created R p l s0) as (s' & tr & E & T & C);
    destruct (copy_each_returns (R := traced R) p l s0) as (s'' & E' & G)
  end.
  rewrite E in E'. injection E' as <-.
  change (group_folder (R := traced R) destPath idx)
    with (group_folder (R := R) destPath idx) in *.
  rewrite (bind_returns _ _ _ _ _ E).
  exists s', tr. split; [reflexivity|].
  split; [|split; [exact C|]].
  - rewrite T. cbn [trace world set_world set_output snd]. now rewrite <- app_assoc.
  - eapply same_globals_trans; [|exact G]. repeat split.
Qed.

Lemma plan_exec_created destPath max truncated batches : forall g s,
  exists s' tr,
    plan_exec (R := traced R) destPath g max truncated batches s = (Return tt, s')
    /\ trace s' = trace s ++ tr
    /\ created tr `sublist_of` batch_dests (R := R) destPath g batches.
Proof.
  induction batches as [|b rest IH]; intros g s.
  - cbn [plan_exec].
    exists (if truncated then set_output (output s ++ [Stdout ("We reached the max amount of samples to copy: " +:+ pretty max)]) s else s), [].
    split; [now destruct truncated|].
    rewrite app_nil_r. split; [now destruct truncated | constructor].
  - cbn [plan_exec batch_dests]. destruct rest as [|b' rest'].
    + set (s1 := if truncated then set_output (output s ++ [Stdout ("We reached the max amount of samples to copy: " +:+ pretty max)]) s else s).
      assert (when truncated (max_notice max) s = (Return tt, s1)) as E1
        by (subst s1; now destruct truncated).
      assert (trace s1 = trace s) as T1 by (subst s1; now destruct truncated).
      rewrite (bind_returns _ _ _ _ _ E1).
      destruct (copy_group_created b destPath g s1) as (s' & tr & E & T & C & _).
      exists s', (CMkdirAll (group_folder (R := R) destPath g) 511 :: tr).
      split; [exact E|]. split; [now rewrite T, T1|].
      cbn [created batch_dests]. now rewrite app_nil_r.
    + destruct (copy_group_created b destPath g s) as (s1 & tr & E & T & C & _).
      rewrite (bind_returns _ _ _ _ _ E).
      destruct (IH (g + 1) s1) as (s' & tr' & E' & T' & C').
      exists s', (CMkdirAll (group_folder (R := R) destPath g) 511 :: tr ++ tr').
      split; [exact E'|].
      split; [rewrite T', T, <- app_assoc; reflexivity|].
      cbn [created]. rewrite created_app. now apply sublist_app.
Qed.

End CreatedCalls.

(** X10. A live per-file copy closes what it has opened, whatever the
    operating system answers.  The function returns, and its last calls close
    the files it was given and no other, the last one given first: nothing
    when [os.Open] fails, the source when [os.Create] fails, and the
    destination and then the source when both succeed, after a failed copy as
    after a complete one.  No file is closed before that.  When [os.Open]
    fails its error is the result; when the result is nil both files were
    given and the calls before the two closes are [os.Open], [os.Create],
    [io.Copy] and [Sync] on the destination.  No line is written. *)
Theorem copy_closes_what_it_opens {W H} (R : Runtime W H) (src dst : string)
        (s : state (W * list (call H))) :
  flagDryRun s = false ->
  exists r s' body,
    copyFileContents (R := traced R) src dst s = (Return r, s')
    /\ trace s'
       = trace s ++ body
         ++ map CClose (rev (handles_given (R := R) src dst (fst (world s))))
    /\ closed body = []
    /\ (forall e, fst (os_Open src (fst (world s))) = inr e -> r = Some e)
    /\ (r = None ->
        exists in_ out,
          handles_given (R := R) src dst (fst (world s)) = [in_; out]
          /\ body = [COpen src; CCreate dst; CCopy out in_; CSync out])
    /\ output s' = output s.
Proof.
  intros Hlive. unfold copyFileContents, handles_given. rewrite bind_gets, Hlive.
  cbn [os_Open os_Create io_Copy file_Sync file_Close traced].
  rewrite bind_sys_recording.
  destruct (os_Open src (fst (world s))) as [[in_|e] w1]; cbn [fst snd].
  - rewrite bind_sys_recording. cbn [world set_world fst snd].
    destruct (os_Create dst w1) as [[out|e] w2]; cbn [fst snd].
    + rewrite bind_sys_recording. cbn [world set_world fst snd].
      destruct (io_Copy out in_ w2) as [[e|] w3]; cbn [fst snd].
      * rewrite !bind_sys_recording. cbn [world set_world fst snd trace].
        eexists _, _, [COpen src; CCreate dst; CCopy out in_].
        split; [reflexivity|]. cbn [trace world snd rev map app].
        rewrite <- !app_assoc. repeat split; try done.
      * rewrite !bind_sys_recording. cbn [world set_world fst snd trace].
        eexists _, _, [COpen src; CCreate dst; CCopy out in_; CSync out].
        split; [reflexivity|]. cbn [trace world snd rev map app].
        rewrite <- !app_assoc. repeat split; try done.
        intros _. now exists in_, out.
    + rewrite bind_sys_recording. cbn [world set_world fst snd trace].
      eexists _, _, [COpen src; CCreate dst].
      split; [reflexivity|]. cbn [trace world snd rev map app].
      rewrite <- !app_assoc. repeat split; try done.
  - eexists _, _, [COpen src]. split; [reflexivity|].
    cbn [trace world snd rev map app]. repeat split; try done.
    intros e' [= ->]. reflexivity.
Qed.

Lemma copy_closes_what_it_opens_witness :
  exists r s' body,
    copyFileContents (R := traced Sim.runtime) "/s/kick_808.wav" "/out/kick_808.wav"
                     (ex_found [] 128 false 1000 (ex_world, []))
    = (Return r, s')
    /\ trace s'
       = [] ++ body ++ [CClose "/out/kick_808.wav"%string; CClose "/s/kick_808.wav"%string]
    /\ closed body = []
    /\ (forall e, fst (os_Open (Runtime := Sim.runtime) "/s/kick_808.wav" ex_world) = inr e ->
        r = Some e)
    /\ (r = None ->
        exists in_ out,
          handles_given (R := Sim.runtime) "/s/kick_808.wav" "/out/kick_808.wav" ex_world
          = [in_; out]
          /\ body = [COpen "/s/kick_808.wav"; CCreate "/out/kick_808.wav"; CCopy out in_;
                     CSync out])
    /\ output s' = [].
Proof.
  apply (copy_closes_what_it_opens Sim.runtime "/s/kick_808.wav" "/out/kick_808.wav"
           (ex_found [] 128 false 1000 (ex_world, []))).
  reflexivity.
Defined.

(** X11. The grouping phase creates files in the group folders only, under
    the base names of the matches: in a dry run or not, and whatever the copies
    answer, the paths given to [os.Create] are, in call order, among the
    paths [group_k/base] of the matches below the cap, the first 128 in
    [group_1], the next 128 in [group_2], and so on. *)
Theorem files_created_in_group_folders {W H} (R : Runtime W H) (destPath : string)
        (s : state (W * list (call H))) :
  exists s' tr,
    grouping (R := traced R) destPath s = (Return tt, s')
    /\ trace s' = trace s ++ tr
    /\ created tr `sublist_of` batch_dests (R := R) destPath 1 (chunks 128 (kept s)).
Proof.
  rewrite grouping_plan. fold (kept s). apply plan_exec_created.
Qed.

(** ** A batch on the in-memory file system *)

Section CopyEachStep.
Context {W H : Type} {R : Runtime W H}.
Implicit Types s : state W.

(** One turn of the loop of [copyFilesToGroup]: the per-file copy runs in a
    state that differs from [s] by output only, and the loop goes on in a
    state that differs from the one the copy left by output only. *)
Lemma copy_each_step subFolderPath src rest s :
  exists s1 r s2 s3,
    world s1 = world s /\ same_globals s s1
    /\ copyFileContents src (dest_name subFolderPath src) s1 = (Return r, s2)
    /\ world s3 = world s2 /\ same_globals s2 s3
    /\ copy_each subFolderPath (src :: rest) s = copy_each subFolderPath rest s3.
Proof.
  cbn [copy_each]. rewrite bind_gets. fold (dest_name subFolderPath src).
  set (dest := dest_name subFolderPath src).
  set (s1 := if flagDebug s
             then set_output (output s ++ [Stdout ("Copying " +:+ src +:+ " to " +:+ dest)]) s
             else s).
  assert (when (flagDebug s) (fmt_Print ("Copying " +:+ src +:+ " to " +:+ dest)) s
          = (Return tt, s1)) as E1 by (subst s1; now destruct (flagDebug s)).
  rewrite (bind_returns _ _ _ _ _ E1).
  destruct (copyFileContents_returns src dest s1) as (r & s2 & E2 & _).
  rewrite (bind_returns _ _ _ _ _ E2).
  exists s1, r, s2,
    (match r with
     | Some e => set_output (output s2 ++ [Logged ("Failed to copy " +:+ src
                   +:+ " to " +:+ dest +:+ ", continuing anyway - " +:+ Error e)]) s2
     | None => s2
     end).
  split; [subst s1; now destruct (flagDebug s)|].
  split; [subst s1; destruct (flagDebug s); repeat split|].
  split; [exact E2|].
  split; [now destruct r|].
  split; [destruct r; repeat split|].
  destruct r; reflexivity.
Qed.

End CopyEachStep.

Section SimBatch.
Implicit Types s : state Sim.fs.

Lemma sim_is_locked_same p (w w' : Sim.fs) :
  Sim.locked w' = Sim.locked w -> Sim.is_locked p w' = Sim.is_locked p w.
Proof. unfold Sim.is_locked. now intros ->. Qed.

(** What a live batch leaves at the destination of one of its files, when
    no later file of the batch has the same destination and no earlier copy
    has written over the file itself. *)
Lemma sim_copy_each_one subFolderPath src after bytes : forall before s,
  flagDryRun s = false ->
  Sim.files (world s) !! src = Some bytes ->
  src ∉ map (dest_name (R := Sim.runtime) subFolderPath) before ->
  dest_name (R := Sim.runtime) subFolderPath src
    ∉ map (dest_name (R := Sim.runtime) subFolderPath) after ->
  Sim.is_locked (dest_name (R := Sim.runtime) subFolderPath src) (world s) = false ->
  exists s',
    copy_each (R := Sim.runtime) subFolderPath (before ++ src :: after) s = (Return tt, s')
    /\ Sim.files (world s') !! dest_name (R := Sim.runtime) subFolderPath src
       = Some (if decide (src = dest_name (R := Sim.runtime) subFolderPath src)
               then ""%string else bytes).
Proof.
  induction before as [|b before IH]; intros s Hlive Hsrc Hbefore Hafter Hfree.
  - cbn [app].
    destruct (copy_each_step (R := Sim.runtime) subFolderPath src after s)
      as (s1 & r & s2 & s3 & W1 & G1 & E2 & W3 & _ & ->).
    rewrite (sim_copy_ok src _ bytes s1) in E2.
    + injection E2 as <- <-.
      destruct (sim_copy_each_frame subFolderPath after s3) as (s4 & E4 & F4 & _).
      exists s4. split; [exact E4|].
      rewrite (F4 _ Hafter), W3. cbn [world set_world Sim.files Sim.with_files].
      apply lookup_insert_eq.
    + transitivity (flagDryRun s); [apply G1 | exact Hlive].
    + now rewrite W1.
    + now rewrite W1.
  - cbn [app map] in *. apply not_elem_of_cons in Hbefore as [Hne Hbefore].
    destruct (copy_each_step (R := Sim.runtime) subFolderPath b (before ++ src :: after) s)
      as (s1 & r & s2 & s3 & W1 & G1 & E2 & W3 & G3 & ->).
    destruct (sim_copy_frame b (dest_name (R := Sim.runtime) subFolderPath b) s1)
      as (r' & s2' & E2' & F & L & G2).
    rewrite E2 in E2'. injection E2' as <- <-.
    apply IH.
    + transitivity (flagDryRun s2); [apply G3|].
      transitivity (flagDryRun s1); [apply G2|].
      transitivity (flagDryRun s); [apply G1 | exact Hlive].
    + now rewrite W3, (F src Hne), W1.
    + exact Hbefore.
    + exact Hafter.
    + rewrite <- Hfree. apply sim_is_locked_same. now rewrite W3, L, W1.
Qed.

(** A live batch whose sources all exist and whose destinations can all be
    created: every copy is made, and the only lines written are the debug
    lines. *)
Lemma sim_copy_each_quiet subFolderPath srcPaths : forall s,
  flagDryRun s = false ->
  Forall (fun p => is_Some (Sim.files (world s) !! p)
                   /\ Sim.is_locked (dest_name (R := Sim.runtime) subFolderPath p) (world s)
                      = false) srcPaths ->
  exists s',
    copy_each (R := Sim.runtime) subFolderPath srcPaths s = (Return tt, s')
    /\ output s'
       = output s ++ live_lines (R := Sim.runtime) (flagDebug s) subFolderPath srcPaths.
Proof.
  induction srcPaths as [|src rest IH]; intros s Hlive Hall.
  - exists s. split; [reflexivity|]. unfold live_lines.
    destruct (flagDebug s); cbn [map]; now rewrite app_nil_r.
  - apply Forall_cons in Hall as [[[bytes Hsrc] Hfree] Hrest].
    cbn [copy_each]. rewrite bind_gets. fold (dest_name (R := Sim.runtime) subFolderPath src).
    set (dest := dest_name (R := Sim.runtime) subFolderPath src) in *.
    set (s1 := if flagDebug s
               then set_output (output s ++ [Stdout ("Copying " +:+ src +:+ " to " +:+ dest)]) s
               else s).
    assert (when (flagDebug s) (fmt_Print ("Copying " +:+ src +:+ " to " +:+ dest)) s
            = (Return tt, s1)) as E1 by (subst s1; now destruct (flagDebug s)).
    assert (world s1 = world s /\ flagDryRun s1 = flagDryRun s /\ flagDebug s1 = flagDebug s)
      as (W1 & D1 & B1)
      by (subst s1; destruct (flagDebug s) eqn:Hd; cbn; rewrite ?Hd; auto).
    rewrite (bind_returns _ _ _ _ _ E1).
    rewrite (bind_returns _ _ _ _ _
               (sim_copy_ok src dest bytes s1 ltac:(now rewrite D1) ltac:(now rewrite W1)
                  ltac:(now rewrite W1))).
    rewrite bind_ret_l.
    match goal with |- context [copy_each _ rest ?s0] => set (s2 := s0) end.
    destruct (IH s2) as (s' & E & O).
    + subst s2. cbn [flagDryRun set_world]. now rewrite D1.
    + subst s2. cbn [world set_world]. rewrite W1.
      eapply Forall_impl; [exact Hrest|]. intros p [[b Hp] Hl]. split.
      * cbn [Sim.files Sim.with_files].
        destruct (decide (p = dest)) as [->|Hne];
          [rewrite lookup_insert_eq | rewrite lookup_insert_ne by done]; eauto.
      * exact Hl.
    + exists s'. split; [exact E|]. rewrite O. subst s2.
      cbn [output flagDebug set_world]. rewrite B1. subst s1. unfold live_lines.
      destruct (flagDebug s); cbn [output set_output map app];
        rewrite <- ?app_assoc; reflexivity.
Qed.

End SimBatch.

(** X12. Two files of one batch with the same base name, on the in-memory
    file system: in a live run the copy of the later one replaces that of
    the earlier one, and no line says so.  The group folder is absolute and
    every source of the batch is an absolute, clean path of a file that
    exists, with a destination that can be created.  For a source [src] of
    the batch that is not a destination of the files up to it: when no file
    after it has its base name (any number before it may), the batch leaves
    the bytes of [src] at [subFolderPath/base], and it writes its debug lines
    and nothing else. *)
Theorem same_name_last_one_wins (subFolderPath src bytes : string)
        (before after : list string) (s : state Sim.fs) :
  flagDryRun s = false ->
  Go.IsAbs subFolderPath = true ->
  Sim.files (world s) !! src = Some bytes ->
  Forall (fun p => canonical p = true
                   /\ is_Some (Sim.files (world s) !! p)
                   /\ Sim.is_locked (dest_name (R := Sim.runtime) subFolderPath p) (world s)
                      = false) (before ++ src :: after) ->
  src ∉ map (dest_name (R := Sim.runtime) subFolderPath) (before ++ [src]) ->
  dest_name (R := Sim.runtime) subFolderPath src
    ∉ map (dest_name (R := Sim.runtime) subFolderPath) after ->
  exists s',
    copy_each (R := Sim.runtime) subFolderPath (before ++ src :: after) s = (Return tt, s')
    /\ Sim.files (world s') !! dest_name (R := Sim.runtime) subFolderPath src = Some bytes
    /\ output s'
       = output s ++ live_lines (R := Sim.runtime) (flagDebug s) subFolderPath
                       (before ++ src :: after).
Proof.
  intros Hlive _ Hsrc Hall Hnot Hafter.
  apply (Forall_impl _ (fun p => is_Some (Sim.files (world s) !! p)
                                 /\ Sim.is_locked (dest_name (R := Sim.runtime) subFolderPath p)
                                                  (world s) = false)) in Hall;
    [|intros p (_ & Hp); exact Hp].
  rewrite map_app in Hnot. apply not_elem_of_app in Hnot as [Hbefore Hself].
  cbn [map] in Hself. apply not_elem_of_cons in Hself as [Hself _].
  assert (Sim.is_locked (dest_name (R := Sim.runtime) subFolderPath src) (world s) = false)
    as Hfree.
  { apply Forall_app in Hall as [_ Hall]. apply Forall_cons in Hall as [[_ Hfree] _].
    exact Hfree. }
  destruct (sim_copy_each_one subFolderPath src after bytes before s
              Hlive Hsrc Hbefore Hafter Hfree) as (s' & E & F).
  destruct (sim_copy_each_quiet subFolderPath (before ++ src :: after) s Hlive Hall)
    as (s'' & E' & O).
  rewrite E in E'. injection E' as <-.
  exists s'. split; [exact E|]. split; [|exact O]. now rewrite decide_False in F.
Qed.

Lemma same_name_last_one_wins_witness :
  exists s',
    copy_each (R := Sim.runtime) "/out//group_1"
              (["/s/a/kick.wav"%string] ++ "/s/b/kick.wav"%string :: [])
              (ex_found [] 128 false 1000 ex_world_twins)
    = (Return tt, s')
    /\ Sim.files (world s') !! "/out/group_1/kick.wav"%string = Some "second"%string
    /\ output s' = [] ++ [].
Proof.
  apply (same_name_last_one_wins "/out//group_1" "/s/b/kick.wav" "second"
           ["/s/a/kick.wav"%string] [] (ex_found [] 128 false 1000 ex_world_twins)).
  - reflexivity.
  - reflexivity.
  - reflexivity.
  - repeat constructor; vm_compute; eauto.
  - vm_compute. intros Hin.
    repeat (apply elem_of_cons in Hin as [Hin|Hin]; [discriminate|]).
    now apply elem_of_nil in Hin.
  - vm_compute. apply not_elem_of_nil.
Defined.

(** X13. A batch changes nothing but its destinations, on the in-memory
    file system.  With an absolute destination, in a dry run or not, and
    whatever fails, [copyFilesToGroup] returns nil and every absolute, clean
    path that is not [group_idx/base] for a file of the batch holds after it
    what it held before (the sources among them, unless they lie where their
    copy goes); what is read-only stays so. *)
Theorem batch_changes_only_its_destinations (srcPaths : list string)
        (destPath : string) (idx : Z) (s : state Sim.fs) :
  Go.IsAbs destPath = true ->
  exists s',
    copyFilesToGroup (R := Sim.runtime) srcPaths destPath idx s = (Return None, s')
    /\ (forall p,
          canonical p = true ->
          p ∉ map (dest_name (R := Sim.runtime) (group_folder (R := Sim.runtime) destPath idx))
                  srcPaths ->
          Sim.files (world s') !! p = Sim.files (world s) !! p)
    /\ Sim.locked (world s') = Sim.locked (world s).
Proof.
  intros _. unfold copyFilesToGroup, fmt_Print. rewrite bind_sys, bind_emit.
  match goal with |- context [bind (copy_each ?p ?l) _ ?s0] =>
    destruct (sim_copy_each_frame p l s0) as (s' & E & F & L)
  end.
  rewrite (bind_returns _ _ _ _ _ E).
  exists s'. split; [reflexivity|].
  cbn [world set_world set_output os_MkdirAll Sim.runtime] in F, L.
  split.
  - intros p _ Hp. rewrite (F p Hp). unfold Sim.MkdirAll.
    now destruct (Sim.is_locked _ (world s)).
  - rewrite L. unfold Sim.MkdirAll. now destruct (Sim.is_locked _ (world s)).
Qed.

Lemma batch_changes_only_its_destinations_witness :
  exists s',
    copyFilesToGroup (R := Sim.runtime) ["/out/group_1/old.wav"; "/s/a/kick.wav"]%string
                     "/out/" 1 (ex_found [] 128 false 1000 ex_world_twins)
    = (Return None, s')
    /\ (forall p,
          canonical p = true ->
          p ∉ ["/out/group_1/old.wav"; "/out/group_1/kick.wav"]%string ->
          Sim.files (world s') !! p = Sim.files ex_world_twins !! p)
    /\ Sim.locked (world s') = [].
Proof.
  apply (batch_changes_only_its_destinations
           ["/out/group_1/old.wav"; "/s/a/kick.wav"]%string "/out/" 1
           (ex_found [] 128 false 1000 ex_world_twins)).
  reflexivity.
Defined.

(** X14. A match that already lies where its copy goes is emptied, on the
    in-memory file system: when [src] is its own destination in the batch
    (the source tree holds the group folder), a live run truncates it by
    [os.Create] before it reads it, the copy returns nil, and the file is left
    with no bytes. *)
Theorem copy_onto_itself_empties (subFolderPath src bytes : string)
        (before after : list string) (s : state Sim.fs) :
  flagDryRun s = false ->
  Sim.files (world s) !! src = Some bytes ->
  dest_name (R := Sim.runtime) subFolderPath src = src ->
  src ∉ map (dest_name (R := Sim.runtime) subFolderPath) (before ++ after) ->
  Sim.is_locked src (world s) = false ->
  copyFileContents (R := Sim.runtime) src (dest_name (R := Sim.runtime) subFolderPath src) s
  = (Return None,
     set_world (Sim.with_files (<[src := ""%string]> (Sim.files (world s))) (world s)) s)
  /\ exists s',
       copy_each (R := Sim.runtime) subFolderPath (before ++ src :: after) s = (Return tt, s')
       /\ Sim.files (world s') !! src = Some ""%string.
Proof.
  intros Hlive Hsrc Hself Hnot Hfree.
  rewrite map_app in Hnot. apply not_elem_of_app in Hnot as [Hbefore Hafter].
  split.
  - rewrite Hself, (sim_copy_ok src src bytes s Hlive Hsrc Hfree).
    now rewrite decide_True.
  - destruct (sim_copy_each_one subFolderPath src after bytes before s) as (s' & E & F);
      try assumption; try (rewrite Hself; assumption).
    exists s'. split; [exact E|].
    rewrite Hself in F. now rewrite decide_True in F.
Qed.

Lemma copy_onto_itself_empties_witness :
  exists s',
    copy_each (R := Sim.runtime) "/out/group_1"
              (["/s/a/kick.wav"%string] ++ "/out/group_1/old.wav"%string :: [])
              (ex_found [] 128 false 1000 ex_world_twins)
    = (Return tt, s')
    /\ Sim.files (world s') !! "/out/group_1/old.wav"%string = Some ""%string.
Proof.
  apply (copy_onto_itself_empties "/out/group_1" "/out/group_1/old.wav" "old"
           ["/s/a/kick.wav"%string] [] (ex_found [] 128 false 1000 ex_world_twins)).
  - reflexivity.
  - reflexivity.
  - reflexivity.
  - vm_compute. intros Hin.
    repeat (apply elem_of_cons in Hin as [Hin|Hin]; [discriminate|]).
    now apply elem_of_nil in Hin.
  - reflexivity.
Defined.

(** ** What a run writes and which folders it makes *)

Section DryOutput.
Context {W H : Type} {R : Runtime W H}.
Implicit Types s : state W.

Lemma copy_each_dry_output subFolderPath srcPaths : forall s,
  flagDryRun s = true ->
  copy_each subFolderPath srcPaths s
  = (Return tt,
     set_output (output s ++ flat_map (dry_lines (flagDebug s) subFolderPath) srcPaths) s).
Proof.
  induction srcPaths as [|src rest IH]; intros s Hdry.
  - cbn [copy_each flat_map]. rewrite app_nil_r. destruct s; reflexivity.
  - cbn [copy_each flat_map]. rewrite bind_gets.
    fold (dest_name subFolderPath src).
    set (dest := dest_name subFolderPath src).
    set (s1 := if flagDebug s
               then set_output (output s ++ [Stdout ("Copying " +:+ src +:+ " to " +:+ dest)]) s
               else s).
    assert (when (flagDebug s) (fmt_Print ("Copying " +:+ src +:+ " to " +:+ dest)) s
            = (Return tt, s1)) as E1 by (subst s1; now destruct (flagDebug s)).
    rewrite (bind_returns _ _ _ _ _ E1).
    assert (flagDryRun s1 = true) as Hdry1 by (subst s1; now destruct (flagDebug s)).
    assert (copyFileContents src dest s1
            = (Return None,
               set_output (output s1 ++ [Logged ("Copying " +:+ src +:+ " to " +:+ dest)]) s1))
      as E2 by (unfold copyFileContents; rewrite bind_gets, Hdry1; reflexivity).
    rewrite (bind_returns _ _ _ _ _ E2), bind_ret_l.
    rewrite IH by exact Hdry1.
    unfold dry_lines. fold dest. subst s1.
    destruct s as [a b c d e debug g h w o]; cbn in *.
    destruct debug; cbn; rewrite <- ?app_assoc; reflexivity.
Qed.

End DryOutput.

(** X15. The folders of a run: in a dry run as in a live one, the grouping
    phase calls [os.MkdirAll] on [group_1], [group_2], ..., [group_n] of the
    destination, in this order and once each, where [n] is the number of
    matches below the cap divided by 128 and rounded up. *)
Theorem group_folders_made {W H} (R : Runtime W H) (destPath : string)
        (s : state (W * list (call H))) :
  exists s' tr,
    grouping (R := traced R) destPath s = (Return tt, s')
    /\ trace s' = trace s ++ tr
    /\ made_dirs tr
       = group_folders (R := R) destPath 1 ((length (kept s) + 127) / 128)
    /\ length (made_dirs tr) = ((length (kept s) + 127) / 128)%nat.
Proof.
  destruct (grouping_calls R destPath s) as (s' & tr & E & T & D & _).
  exists s', tr. split; [exact E|]. split; [exact T|].
  rewrite chunks_length in D by lia.
  replace (length (kept s) + 128 - 1)%nat with (length (kept s) + 127)%nat in D by lia.
  split; [exact D|].
  rewrite D. unfold group_folders. now rewrite length_map, length_seq.
Qed.

(** X17. Nothing below the cap, nothing done: with a cap of zero or less,
    or with no match, the grouping phase makes no call and leaves the world
    as it is; it writes the notice of the cap when there are matches, and
    nothing when there is none. *)
Theorem nothing_kept_nothing_done {W H} {R : Runtime W H} (destPath : string)
        (s : state W) :
  flagMax s <= 0 \/ matchingPaths s = [] ->
  grouping destPath s
  = (Return tt,
     if bool_decide (matchingPaths s = [])
     then s
     else set_output
            (output s ++ [Stdout ("We reached the max amount of samples to copy: "
                                  +:+ pretty (flagMax s))]) s).
Proof.
  intros Hnone. rewrite grouping_plan.
  assert (take (Z.to_nat (flagMax s)) (matchingPaths s) = []) as ->.
  { destruct Hnone as [Hmax | ->]; [|apply take_nil].
    replace (Z.to_nat (flagMax s)) with 0%nat by lia. apply take_0. }
  rewrite chunks_nil. cbn [plan_exec length].
  destruct (matchingPaths s) as [|p l]; reflexivity.
Qed.

Lemma nothing_kept_nothing_done_witness :
  grouping (R := Sim.runtime) "/out" (ex_found ex_three 128 false 0 ex_world_three)
  = (Return tt,
     set_output [Stdout "We reached the max amount of samples to copy: 0"]
                (ex_found ex_three 128 false 0 ex_world_three)).
Proof.
  apply (nothing_kept_nothing_done (R := Sim.runtime) "/out"
           (ex_found ex_three 128 false 0 ex_world_three)).
  left. simpl. lia.
Defined.

(** X18. A dry run reports its plan: [copyFilesToGroup] writes the line of
    the batch and then, for each file of the batch in order, the line
    [Copying src to group_idx/base] (after the same line on the standard
    output, in debug mode); it returns nil, and the world is what
    [os.MkdirAll] on the group folder has made of it. *)
Theorem dry_run_reports_the_plan {W H} {R : Runtime W H} (srcPaths : list string)
        (destPath : string) (idx : Z) (s : state W) :
  flagDryRun s = true ->
  exists s',
    copyFilesToGroup srcPaths destPath idx s = (Return None, s')
    /\ output s'
       = output s
         ++ Stdout ("Copying " +:+ pretty (Z.of_nat (length srcPaths)) +:+ " files to "
                    +:+ group_folder destPath idx)
         :: flat_map (dry_lines (flagDebug s) (group_folder destPath idx)) srcPaths
    /\ world s' = snd (os_MkdirAll (group_folder destPath idx) 511 (world s)).
Proof.
  intros Hdry. unfold copyFilesToGroup, fmt_Print. rewrite bind_sys, bind_emit.
  match goal with |- context [bind (copy_each ?p ?l) _ ?s0] =>
    rewrite (bind_returns _ _ _ _ _ (copy_each_dry_output p l s0 Hdry))
  end.
  eexists. split; [reflexivity|].
  cbn [output world set_output set_world flagDebug].
  split; [now rewrite <- app_assoc | reflexivity].
Qed.

Lemma dry_run_reports_the_plan_witness :
  exists s',
    copyFilesToGroup (R := Sim.runtime) ["/s/a.wav"; "/s/b.wav"]%string "/out" 1
                     (ex_found [] 128 true 1000 ex_world_three)
    = (Return None, s')
    /\ output s'
       = [] ++ Stdout "Copying 2 files to /out/group_1"
         :: [Logged "Copying /s/a.wav to /out/group_1/a.wav";
             Logged "Copying /s/b.wav to /out/group_1/b.wav"]
    /\ world s' = Sim.with_dirs {["/out/group_1"%string]} ex_world_three.
Proof.
  apply (dry_run_reports_the_plan (R := Sim.runtime) ["/s/a.wav"; "/s/b.wav"]%string
           "/out" 1 (ex_found [] 128 true 1000 ex_world_three)).
  reflexivity.
Defined.

(** X16 is [grouping_batches]; here on three matches, with the group-size
    flag set to 2. *)
Lemma grouping_batches_witness :
  exists s' tr,
    grouping (R := traced Sim.runtime) "/out"
             (ex_found ex_three 2 false 1000 (ex_world_three, []))
    = (Return tt, s')
    /\ trace s' = [] ++ tr
    /\ batches_of tr = chunks 128 ex_three
    /\ length (batches_of tr) = ((3 + 127) / 128)%nat
    /\ (forall i, batches_of tr !! i
                  = if (i * 128 <? 3)%nat
                    then Some (take 128 (drop (i * 128) ex_three)) else None)
    /\ concat (batches_of tr) = ex_three.
Proof.
  apply (grouping_batches Sim.runtime "/out"
           (ex_found ex_three 2 false 1000 (ex_world_three, []))).
  reflexivity.
Defined.
